(** * A shallow embedding of [lib/logger.js] (blgr)

    The logger writes leveled, timestamped lines to the console and to a
    size-bounded, rotating log file.  This development embeds the
    [Logger] and [LoggerContext] classes of [lib/logger.js] and the helper
    [dateString], together with the small part of the JavaScript runtime
    they rely on (string [replace]/[slice], [Array.prototype.slice] and
    [sort], [Date.prototype.toJSON], a fragment of [RegExp]), and proves the
    properties of the rotation, buffering, pruning and recovery protocol.

    Conventions.
    - JavaScript strings are modelled by [string] (sequences of 8-bit code
      units); comparison is by code unit, as [Array.prototype.sort] and [<]
      do.
    - Numbers that the code only uses as integers are [Z].
    - An [async] method is a resumption: it runs synchronously up to its
      next [await] of a host operation and yields a continuation that reads
      the logger fields again when it is resumed.
    - [./format] and [./fs] and node's [path] are collaborators that are not
      part of this file; they are taken as parameters ([Host]). *)

From Stdlib Require Import ZArith List String Ascii Bool Lia.
From Stdlib Require Import Sorted Permutation.
From stdpp Require Import gmap strings.
Import ListNotations.

Local Open Scope string_scope.
Local Open Scope Z_scope.

Set Default Proof Using "Type".

#[local] Arguments String.append !_ _ / : simpl nomatch.

(* ===================================================================== *)
(** * JavaScript strings *)
(* ===================================================================== *)

Module JsString.

(** [s.replace(/c/g, r)] for a one-character pattern and replacement. *)
Fixpoint replace_all (c r : ascii) (s : string) : string :=
  match s with
  | EmptyString => EmptyString
  | String a s' =>
      String (if Ascii.eqb a c then r else a) (replace_all c r s')
  end.

(** [s.replace('c', 'r')]: a string pattern replaces its first occurrence
    only. *)
Fixpoint replace_first (c r : ascii) (s : string) : string :=
  match s with
  | EmptyString => EmptyString
  | String a s' =>
      if Ascii.eqb a c then String r s' else String a (replace_first c r s')
  end.

(** Relative index resolution shared by [String.prototype.slice] and
    [Array.prototype.slice]: a negative index counts from the end. *)
Definition rel_index (len i : Z) : Z :=
  if i <? 0 then Z.max (len + i) 0 else Z.min i len.

(** [s.slice(start, end)]. *)
Definition slice (s : string) (start end_ : Z) : string :=
  let len := Z.of_nat (String.length s) in
  let from := rel_index len start in
  let to := rel_index len end_ in
  substring (Z.to_nat from) (Z.to_nat (Z.max (to - from) 0)) s.

(** No code unit of [s] is [c]. *)
Fixpoint lacks (c : ascii) (s : string) : bool :=
  match s with
  | EmptyString => true
  | String a s' => negb (Ascii.eqb a c) && lacks c s'
  end.

(** [s.startsWith(p)]. *)
Fixpoint starts_with (p s : string) : bool :=
  match p, s with
  | EmptyString, _ => true
  | String a p', String b s' => Ascii.eqb a b && starts_with p' s'
  | String _ _, EmptyString => false
  end.

(** [s.includes(t)] *)
Fixpoint includes (t s : string) : bool :=
  starts_with t s ||
  match s with
  | EmptyString => false
  | String _ s' => includes t s'
  end.

(** [s.toUpperCase()] on the ASCII letters. *)
Definition upper_char (a : ascii) : ascii :=
  let n := nat_of_ascii a in
  if (97 <=? n)%nat && (n <=? 122)%nat then ascii_of_nat (n - 32) else a.

Fixpoint toUpperCase (s : string) : string :=
  match s with
  | EmptyString => EmptyString
  | String a s' => String (upper_char a) (toUpperCase s')
  end.

End JsString.

(* ===================================================================== *)
(** * Dates: [new Date().toJSON()] and [dateString] *)
(* ===================================================================== *)

(** An instant, given by the UTC calendar fields that [toISOString] prints
    ([YearFromTime], [MonthFromTime] + 1, [DateFromTime], ...). *)
Record Date : Type := mkDate {
  year : Z;
  month : Z;
  day : Z;
  hours : Z;
  minutes : Z;
  seconds : Z;
  millis : Z
}.

(** The fields of an instant that a [Date] object can hold. *)
Definition valid_date (d : Date) : Prop :=
  -271821 <= year d <= 275760 /\
  1 <= month d <= 12 /\
  1 <= day d <= 31 /\
  0 <= hours d <= 23 /\
  0 <= minutes d <= 59 /\
  0 <= seconds d <= 59 /\
  0 <= millis d <= 999.

(** Chronological order of two instants: the fields compared from the most
    significant one. *)
Definition lex (c : comparison) (k : comparison) : comparison :=
  match c with Eq => k | _ => c end.

Definition Date_compare (a b : Date) : comparison :=
  lex (year a ?= year b)
  (lex (month a ?= month b)
  (lex (day a ?= day b)
  (lex (hours a ?= hours b)
  (lex (minutes a ?= minutes b)
  (lex (seconds a ?= seconds b)
       (millis a ?= millis b)))))).

Definition digit_char (n : Z) : ascii :=
  match n mod 10 with
  | 0 => "0" | 1 => "1" | 2 => "2" | 3 => "3" | 4 => "4"
  | 5 => "5" | 6 => "6" | 7 => "7" | 8 => "8" | _ => "9"
  end%char.

(** [n] printed with exactly [k] decimal digits, zero padded. *)
Fixpoint pad (k : nat) (n : Z) : string :=
  match k with
  | O => EmptyString
  | S k' => pad k' (n / 10) ++ String (digit_char n) EmptyString
  end.

(** The year of [toISOString]: four digits for 0..9999, otherwise a sign
    and six digits (the expanded year of ECMAScript). *)
Definition iso_year (y : Z) : string :=
  if (0 <=? y) && (y <=? 9999) then pad 4 y
  else (if y <? 0 then "-" else "+") ++ pad 6 (Z.abs y).

(** ['2019-10-28T19:02:45.122Z'] *)
Definition toJSON (d : Date) : string :=
  iso_year (year d) ++ "-" ++ pad 2 (month d) ++ "-" ++ pad 2 (day d)
  ++ "T" ++ pad 2 (hours d) ++ ":" ++ pad 2 (minutes d) ++ ":"
  ++ pad 2 (seconds d) ++ "." ++ pad 3 (millis d) ++ "Z".

Definition toISOString (d : Date) : string := toJSON d.

(** [dateString()], with the clock reading [now] made explicit:
    ['2019-10-28_19-01-15-122']. *)
Definition dateString (now : Date) : string :=
  let now0 := toJSON now in
  JsString.slice
    (JsString.replace_first "." "-"
       (JsString.replace_first "T" "_"
          (JsString.replace_all ":" "-" now0)))
    0 (-1).


Definition is_digit (a : ascii) : bool :=
  existsb (Ascii.eqb a)
    ["0"; "1"; "2"; "3"; "4"; "5"; "6"; "7"; "8"; "9"]%char.

(** The timestamp of an archive, field by field. *)
Definition stamp (d : Date) : string :=
  iso_year (year d) ++ "-" ++ pad 2 (month d) ++ "-" ++ pad 2 (day d)
  ++ "_" ++ pad 2 (hours d) ++ "-" ++ pad 2 (minutes d) ++ "-"
  ++ pad 2 (seconds d) ++ "-" ++ pad 3 (millis d).

(* ===================================================================== *)
(** * Arrays: [slice] and the default [sort] *)
(* ===================================================================== *)

Module JsArray.

(** [a.slice(start, end)]. *)
Definition slice {A : Type} (a : list A) (start end_ : Z) : list A :=
  let len := Z.of_nat (List.length a) in
  let from := JsString.rel_index len start in
  let to := JsString.rel_index len end_ in
  firstn (Z.to_nat (Z.max (to - from) 0)) (skipn (Z.to_nat from) a).

(** [a.sort()] on strings: ascending by code units.  Insertion into an
    ordered list; the order is total and equal strings are identical, so
    every sorting algorithm returns this list. *)
Fixpoint insert (x : string) (l : list string) : list string :=
  match l with
  | [] => [x]
  | y :: l' => if String.leb x y then x :: l else y :: insert x l'
  end.

Fixpoint sort (l : list string) : list string :=
  match l with
  | [] => []
  | x :: l' => insert x (sort l')
  end.

End JsArray.

(** Ascending order by code units. *)
Definition ascending (a b : string) : Prop := String.leb a b = true.

(* ===================================================================== *)
(** * A fragment of [RegExp] *)
(* ===================================================================== *)

(** [new RegExp(src)] for patterns built from literal characters, [.],
    the quantifiers [*], [+], [?] (greedy or lazy) and [|].  Groups,
    classes, anchors, braces and escapes are outside the fragment
    ([Unsupported]).  Without back-references and look-around, [test]
    depends only on the language of the pattern. *)
Module RegExp.

Inductive re : Type :=
| Void
| Eps
| Chr (a : ascii)
| Dot
| Cat (r1 r2 : re)
| Alt (r1 r2 : re)
| Star (r : re).

(** [.] matches every code unit but the line terminators. *)
Definition line_terminator (a : ascii) : bool :=
  Ascii.eqb a "010" || Ascii.eqb a "013".

Fixpoint nullable (r : re) : bool :=
  match r with
  | Void => false
  | Eps => true
  | Chr _ => false
  | Dot => false
  | Cat r1 r2 => nullable r1 && nullable r2
  | Alt r1 r2 => nullable r1 || nullable r2
  | Star _ => true
  end.

(** The residual of [r] after reading [c]. *)
Fixpoint deriv (c : ascii) (r : re) : re :=
  match r with
  | Void => Void
  | Eps => Void
  | Chr a => if Ascii.eqb a c then Eps else Void
  | Dot => if line_terminator c then Void else Eps
  | Cat r1 r2 =>
      if nullable r1 then Alt (Cat (deriv c r1) r2) (deriv c r2)
      else Cat (deriv c r1) r2
  | Alt r1 r2 => Alt (deriv c r1) (deriv c r2)
  | Star r1 => Cat (deriv c r1) (Star r1)
  end.

(** Some prefix of [s] matches [r]. *)
Fixpoint match_prefix (r : re) (s : string) : bool :=
  nullable r ||
  match s with
  | EmptyString => false
  | String c s' => match_prefix (deriv c r) s'
  end.

(** [re.test(s)] for a pattern without flags: a match may start at any
    index. *)
Fixpoint test (r : re) (s : string) : bool :=
  match_prefix r s ||
  match s with
  | EmptyString => false
  | String _ s' => test r s'
  end.

Inductive quantified : Type := QNone | QGreedy | QLazy.

(** Parser state: the alternatives already closed by [|], the current
    alternative without its last atom, and the last atom, which a
    quantifier may still follow. *)
Record pstate : Type := mkP {
  alts : option re;
  seq : re;
  atom : option re;
  quant : quantified
}.

Definition flush (p : pstate) : re :=
  match atom p with
  | Some a => Cat (seq p) a
  | None => seq p
  end.

Definition close_alt (p : pstate) : re :=
  match alts p with
  | Some r => Alt r (flush p)
  | None => flush p
  end.

Inductive compiled : Type :=
| Compiled (r : re)
| SyntaxError
| Unsupported.

Definition push (a : re) (p : pstate) : pstate :=
  mkP (alts p) (flush p) (Some a) QNone.

Definition quantify (f : re -> re) (p : pstate) : option pstate :=
  match atom p, quant p with
  | Some a, QNone => Some (mkP (alts p) (seq p) (Some (f a)) QGreedy)
  | _, _ => None
  end.

Definition outside_fragment (c : ascii) : bool :=
  existsb (Ascii.eqb c)
    ["("; ")"; "["; "]"; "{"; "}"; "^"; "$"; "092"]%char.

Fixpoint parse (s : string) (p : pstate) : compiled :=
  match s with
  | EmptyString => Compiled (close_alt p)
  | String c s' =>
      if Ascii.eqb c "|" then
        parse s' (mkP (Some (close_alt p)) Eps None QNone)
      else if Ascii.eqb c "*" then
        match quantify Star p with
        | Some p' => parse s' p'
        | None => SyntaxError
        end
      else if Ascii.eqb c "+" then
        match quantify (fun a => Cat a (Star a)) p with
        | Some p' => parse s' p'
        | None => SyntaxError
        end
      else if Ascii.eqb c "?" then
        match atom p, quant p with
        | Some a, QNone =>
            parse s' (mkP (alts p) (seq p) (Some (Alt a Eps)) QGreedy)
        | Some a, QGreedy =>
            parse s' (mkP (alts p) (seq p) (Some a) QLazy)
        | _, _ => SyntaxError
        end
      else if Ascii.eqb c "." then parse s' (push Dot p)
      else if outside_fragment c then Unsupported
      else parse s' (push (Chr c) p)
  end.

Definition compile (src : string) : compiled :=
  parse src (mkP None Eps None QNone).

End RegExp.

(* ===================================================================== *)
(** * Values, host operations and effects *)
(* ===================================================================== *)

(** A JavaScript Number, as far as the code distinguishes: an integer, or
    any other Number (a fraction, NaN, an infinity). *)
Inductive number : Type :=
| Int (z : Z)
| NonInt.

Inductive value : Type :=
| VUndefined
| VNull
| VBool (b : bool)
| VNum (n : number)
| VStr (s : string)
| VError (message : string) (stack : option string)
| VObject (id : nat).

Inductive exn : Type :=
| AssertionError (msg : string)
| TypeError
| RegExpSyntaxError
| OutsideModel
| IoError (code : string).

(** The asynchronous host operations a method can [await].  [OpYield] is
    the suspension of [await p] on the promise [p] of an [async] method:
    the caller resumes in a later turn, after the code that called it has
    run on. *)
Inductive io_op : Type :=
| OpYield
| OpCloseStream (h : nat)
| OpRename (from to : string)
| OpStat (path : string)
| OpOpenStream (path : string)
| OpReaddir (dir : string)
| OpUnlink (path : string).

Inductive io_result : Type :=
| RDone
| RSize (n : Z)
| RStream (h : nat)
| RNames (names : list string)
| RError (code : string).

(** What the logger does to the outside, in order. *)
Inductive effect : Type :=
| EWrite (h : nat) (msg : string)          (* stream.write(msg) *)
| EStreamClose (h : nat)                   (* stream.close() *)
| EConsoleError (args : list value)        (* console.error(...) *)
| EConsoleLog (args : list value)          (* console.log(...) *)
| EStdout (msg : string)                   (* process.stdout.write(msg) *)
| EStderr (msg : string).                  (* process.stderr.write(msg) *)

(** The collaborators: [./fs] ([unsupported]), [./format], node's [path]
    and [process]. *)
Record Host : Type := mkHost {
  fs_unsupported : bool;
  format : list value -> bool -> string;
  Path_extname : string -> string;
  Path_basename : string -> string -> string;
  Path_dirname : string -> string;
  Path_join : string -> string -> string;
  HAS_TTY : bool;
  process_stdout : bool
}.

(* ===================================================================== *)
(** * The Logger object and the world around it *)
(* ===================================================================== *)

Record LoggerContext : Type := mkLoggerContext {
  module : string
}.

Record Logger : Type := mkLogger {
  level : nat;
  colors : bool;
  maxFileSize : Z;
  maxFiles : Z;
  timestamps : bool;
  console : bool;
  closed : bool;
  closing : bool;
  filename : option string;
  stream : option nat;
  contexts : gmap string nat;
  rotating : bool;
  _fileSize : Z;
  _buffer : list string;
  timer : option nat
}.

(** One [Logger], the objects it created, the clock, and the host state
    the logger registered itself in. *)
Record World : Type := mkWorld {
  logger : Logger;
  clock : Date;
  effects : list effect;          (* oldest first *)
  timers : list (nat * Z);        (* outstanding [setTimeout]s: id, delay *)
  listeners : list nat;           (* streams whose 'error' runs handleError *)
  heap : gmap nat LoggerContext;  (* the LoggerContext objects *)
  next_id : nat                   (* next fresh object or timer id *)
}.

Module Levels.
Definition NONE : nat := 0.
Definition ERROR : nat := 1.
Definition WARNING : nat := 2.
Definition INFO : nat := 3.
Definition DEBUG : nat := 4.
Definition SPAM : nat := 5.
End Levels.

Definition MAX_FILE_SIZE : Z := Z.shiftl 20 20.
Definition MAX_ARCHIVAL_FILES : Z := 10.

(** [Logger.levels[name]] *)
Definition levels (name : string) : option nat :=
  if String.eqb name "NONE" then Some Levels.NONE
  else if String.eqb name "ERROR" then Some Levels.ERROR
  else if String.eqb name "WARNING" then Some Levels.WARNING
  else if String.eqb name "INFO" then Some Levels.INFO
  else if String.eqb name "DEBUG" then Some Levels.DEBUG
  else if String.eqb name "SPAM" then Some Levels.SPAM
  else None.

Definition levelsByVal : list string :=
  ["none"; "error"; "warning"; "info"; "debug"; "spam"].

Definition prefixByVal : list string := ["N"; "E"; "W"; "I"; "D"; "S"].

Definition styles : list string := ["0"; "1;31"; "1;33"; "94"; "90"; "90"].

(** ** Field updates *)

Definition set_level (v : nat) (l : Logger) : Logger :=
  mkLogger v (colors l) (maxFileSize l) (maxFiles l) (timestamps l)
    (console l) (closed l) (closing l) (filename l) (stream l) (contexts l)
    (rotating l) (_fileSize l) (_buffer l) (timer l).
Definition set_colors (v : bool) (l : Logger) : Logger :=
  mkLogger (level l) v (maxFileSize l) (maxFiles l) (timestamps l)
    (console l) (closed l) (closing l) (filename l) (stream l) (contexts l)
    (rotating l) (_fileSize l) (_buffer l) (timer l).
Definition set_maxFileSize (v : Z) (l : Logger) : Logger :=
  mkLogger (level l) (colors l) v (maxFiles l) (timestamps l)
    (console l) (closed l) (closing l) (filename l) (stream l) (contexts l)
    (rotating l) (_fileSize l) (_buffer l) (timer l).
Definition set_maxFiles (v : Z) (l : Logger) : Logger :=
  mkLogger (level l) (colors l) (maxFileSize l) v (timestamps l)
    (console l) (closed l) (closing l) (filename l) (stream l) (contexts l)
    (rotating l) (_fileSize l) (_buffer l) (timer l).
Definition set_timestamps (v : bool) (l : Logger) : Logger :=
  mkLogger (level l) (colors l) (maxFileSize l) (maxFiles l) v
    (console l) (closed l) (closing l) (filename l) (stream l) (contexts l)
    (rotating l) (_fileSize l) (_buffer l) (timer l).
Definition set_console (v : bool) (l : Logger) : Logger :=
  mkLogger (level l) (colors l) (maxFileSize l) (maxFiles l) (timestamps l)
    v (closed l) (closing l) (filename l) (stream l) (contexts l)
    (rotating l) (_fileSize l) (_buffer l) (timer l).
Definition set_closed (v : bool) (l : Logger) : Logger :=
  mkLogger (level l) (colors l) (maxFileSize l) (maxFiles l) (timestamps l)
    (console l) v (closing l) (filename l) (stream l) (contexts l)
    (rotating l) (_fileSize l) (_buffer l) (timer l).
Definition set_closing (v : bool) (l : Logger) : Logger :=
  mkLogger (level l) (colors l) (maxFileSize l) (maxFiles l) (timestamps l)
    (console l) (closed l) v (filename l) (stream l) (contexts l)
    (rotating l) (_fileSize l) (_buffer l) (timer l).
Definition set_filename (v : option string) (l : Logger) : Logger :=
  mkLogger (level l) (colors l) (maxFileSize l) (maxFiles l) (timestamps l)
    (console l) (closed l) (closing l) v (stream l) (contexts l)
    (rotating l) (_fileSize l) (_buffer l) (timer l).
Definition set_stream (v : option nat) (l : Logger) : Logger :=
  mkLogger (level l) (colors l) (maxFileSize l) (maxFiles l) (timestamps l)
    (console l) (closed l) (closing l) (filename l) v (contexts l)
    (rotating l) (_fileSize l) (_buffer l) (timer l).
Definition set_contexts (v : gmap string nat) (l : Logger) : Logger :=
  mkLogger (level l) (colors l) (maxFileSize l) (maxFiles l) (timestamps l)
    (console l) (closed l) (closing l) (filename l) (stream l) v
    (rotating l) (_fileSize l) (_buffer l) (timer l).
Definition set_rotating (v : bool) (l : Logger) : Logger :=
  mkLogger (level l) (colors l) (maxFileSize l) (maxFiles l) (timestamps l)
    (console l) (closed l) (closing l) (filename l) (stream l) (contexts l)
    v (_fileSize l) (_buffer l) (timer l).
Definition set_fileSize (v : Z) (l : Logger) : Logger :=
  mkLogger (level l) (colors l) (maxFileSize l) (maxFiles l) (timestamps l)
    (console l) (closed l) (closing l) (filename l) (stream l) (contexts l)
    (rotating l) v (_buffer l) (timer l).
Definition set_buffer (v : list string) (l : Logger) : Logger :=
  mkLogger (level l) (colors l) (maxFileSize l) (maxFiles l) (timestamps l)
    (console l) (closed l) (closing l) (filename l) (stream l) (contexts l)
    (rotating l) (_fileSize l) v (timer l).
Definition set_timer (v : option nat) (l : Logger) : Logger :=
  mkLogger (level l) (colors l) (maxFileSize l) (maxFiles l) (timestamps l)
    (console l) (closed l) (closing l) (filename l) (stream l) (contexts l)
    (rotating l) (_fileSize l) (_buffer l) v.

(** [this.f = ...] inside a world. *)
Definition upd (f : Logger -> Logger) (w : World) : World :=
  mkWorld (f (logger w)) (clock w) (effects w) (timers w) (listeners w)
    (heap w) (next_id w).

Definition emit (e : effect) (w : World) : World :=
  mkWorld (logger w) (clock w) (effects w ++ [e]) (timers w) (listeners w)
    (heap w) (next_id w).

Definition set_clock (d : Date) (w : World) : World :=
  mkWorld (logger w) d (effects w) (timers w) (listeners w)
    (heap w) (next_id w).

Definition set_timers (t : list (nat * Z)) (w : World) : World :=
  mkWorld (logger w) (clock w) (effects w) t (listeners w)
    (heap w) (next_id w).

Definition set_listeners (ls : list nat) (w : World) : World :=
  mkWorld (logger w) (clock w) (effects w) (timers w) ls
    (heap w) (next_id w).

Arguments set_level _ _ /.
Arguments set_colors _ _ /.
Arguments set_maxFileSize _ _ /.
Arguments set_maxFiles _ _ /.
Arguments set_timestamps _ _ /.
Arguments set_console _ _ /.
Arguments set_closed _ _ /.
Arguments set_closing _ _ /.
Arguments set_filename _ _ /.
Arguments set_stream _ _ /.
Arguments set_contexts _ _ /.
Arguments set_rotating _ _ /.
Arguments set_fileSize _ _ /.
Arguments set_buffer _ _ /.
Arguments set_timer _ _ /.
Arguments upd _ _ /.
Arguments emit _ _ /.
Arguments set_clock _ _ /.
Arguments set_timers _ _ /.
Arguments set_listeners _ _ /.

(** [new LoggerContext(this, module)]: a fresh object. *)
Definition alloc (c : LoggerContext) (w : World) : nat * World :=
  (next_id w,
   mkWorld (logger w) (clock w) (effects w) (timers w) (listeners w)
     (<[next_id w := c]> (heap w)) (S (next_id w))).

(* ===================================================================== *)
(** * Resumptions: [async] methods *)
(* ===================================================================== *)

(** The state of a call: finished with a value, failed with an exception,
    having started a promise nobody awaits ([Spawn]), or suspended at an
    [await] with the rest of the method as a continuation over the world
    it will find when it is resumed. *)
#[local] Unset Elimination Schemes.
Inductive Async : Type :=
| Done (v : value)
| Fail (e : exn)
| Spawn (child : Async) (next : Async)
| Await (op : io_op) (k : io_result -> World -> World * Async).
#[local] Set Elimination Schemes.

(** A method: from the world at the call to the world at its first
    suspension (or at its end). *)
Definition M : Type := World -> World * Async.

Fixpoint bind (t : Async) (f : value -> M) (w : World) {struct t}
  : World * Async :=
  match t with
  | Done v => f v w
  | Fail e => (w, Fail e)
  | Spawn c nx => let (w', t') := bind nx f w in (w', Spawn c t')
  | Await op k =>
      (w, Await op (fun r w1 => let (w2, t') := k r w1 in bind t' f w2))
  end.

Definition ret (v : value) : M := fun w => (w, Done v).
Definition throw (e : exn) : M := fun w => (w, Fail e).
Definition seqM (m : M) (f : value -> M) : M :=
  fun w => let (w1, t) := m w in bind t f w1.
Definition await (op : io_op) (k : io_result -> M) : M :=
  fun w => (w, Await op k).
(** [await m()] for an [async] method [m]. *)
Definition await_call (m : M) (f : value -> M) : M :=
  seqM m (fun v => await OpYield (fun _ => f v)).
(** [m()] for an [async] method whose promise is dropped. *)
Definition spawn (m : M) : M :=
  fun w => let (w1, t) := m w in (w1, Spawn t (Done VUndefined)).
Definition withW (f : World -> M) : M := fun w => f w w.
Definition modify (f : World -> World) : M :=
  fun w => (f w, Done VUndefined).
Definition assert (b : bool) (msg : string) : M :=
  if b then ret VUndefined else throw (AssertionError msg).

Arguments ret _ _ /.
Arguments throw _ _ /.
Arguments seqM _ _ _ /.
Arguments await _ _ _ /.
Arguments await_call _ _ _ /.
Arguments spawn _ _ /.
Arguments withW _ _ /.
Arguments modify _ _ /.
Arguments assert _ _ _ /.

Declare Scope js_scope.
Delimit Scope js_scope with js.
Notation "'let*' x ':=' m 'in' k" := (seqM m (fun x => k))
  (at level 10, x name, m at level 100, k at level 200) : js_scope.
Notation "'exec' m 'then' k" := (seqM m (fun _ => k))
  (at level 10, m at level 100, k at level 200) : js_scope.
Local Open Scope js_scope.

(** The exception a host answer of the wrong kind or an error code is
    turned into. *)
Definition failure_of (r : io_result) : exn :=
  match r with
  | RError c => IoError c
  | _ => IoError "EINVAL"
  end.

Definition is_nullish (v : value) : bool :=
  match v with
  | VUndefined | VNull => true
  | _ => false
  end.

(** Truthiness of a [String|null]. *)
Definition truthy (s : option string) : bool :=
  match s with
  | Some s' => negb (String.eqb s' "")
  | None => false
  end.

Definition is_some {A : Type} (o : option A) : bool :=
  match o with Some _ => true | None => false end.

Definition nl : string := String "010" EmptyString.

Definition strlen (s : string) : Z := Z.of_nat (String.length s).

(** [(v >>> 0) === v]: [v] is a Number and an unsigned 32-bit integer. *)
Definition is_uint32 (v : value) : option Z :=
  match v with
  | VNum (Int z) => if (z mod 2 ^ 32) =? z then Some z else None
  | _ => None
  end.

(** ** Error text of [logError] *)

Fixpoint drop_spaces (s : string) : string :=
  match s with
  | String a s' => if Ascii.eqb a " " then drop_spaces s' else s
  | EmptyString => EmptyString
  end.

(** [s.replace(/^ *Error: */, '')] *)
Definition strip_error (s : string) : string :=
  let s1 := drop_spaces s in
  if JsString.starts_with "Error:" s1
  then drop_spaces (substring 6 (String.length s1 - 6) s1)
  else s.

(** [s.split('\n').slice(1).join('\n')] *)
Fixpoint after_first_line (s : string) : string :=
  match s with
  | EmptyString => EmptyString
  | String a s' => if Ascii.eqb a "010" then s' else after_first_line s'
  end.

(* ===================================================================== *)
(** * The methods of [Logger] *)
(* ===================================================================== *)

Section Methods.

Variable host : Host.

(** ** Recovery: [retry], [handleError], [reopen] *)

(** [setTimeout(callback, 10000)] unless a timer is already recorded. *)
Definition retry (w : World) : World :=
  match timer (logger w) with
  | Some _ => w
  | None =>
      let id := next_id w in
      mkWorld (set_timer (Some id) (logger w)) (clock w) (effects w)
        (timers w ++ [(id, 10000)]) (listeners w) (heap w) (S id)
  end.

(** [handleError(err)]; a [stream.close()] that throws, or a missing
    stream, is swallowed by the [try]. *)
Definition handleError (w : World) : World :=
  let w1 :=
    match stream (logger w) with
    | Some h => emit (EStreamClose h) w
    | None => w
    end in
  retry (upd (set_stream None) w1).

Definition reopen : M := fun w =>
  if is_some (stream (logger w)) then (w, Done VUndefined)
  else if closed (logger w) then (w, Done VUndefined)
  else if fs_unsupported host then (w, Done VUndefined)
  else
    match filename (logger w) with
    | Some f =>
        (w, Await (OpOpenStream f) (fun r w1 =>
           match r with
           | RStream h =>
               (set_listeners (listeners w1 ++ [h])
                  (upd (set_stream (Some h)) w1), Done VUndefined)
           | _ => (retry w1, Done VUndefined)
           end))
    | None => (retry w, Done VUndefined)
    end.

(** The callback of the timer set by [retry]. *)
Definition retry_callback : M :=
  exec modify (upd (set_timer None)) then spawn reopen.

(** The host runs the callback of an outstanding timer. *)
Definition timer_fire (id : nat) : M := fun w =>
  if existsb (fun t => Nat.eqb (fst t) id) (timers w) then
    retry_callback
      (set_timers
         (List.filter (fun t => negb (Nat.eqb (fst t) id)) (timers w)) w)
  else (w, Done VUndefined).

(** The host emits ['error'] on stream [h]; the handler was registered
    with [once]. *)
Definition stream_error (h : nat) (w : World) : World :=
  if existsb (Nat.eqb h) (listeners w) then
    handleError
      (set_listeners
         (List.filter (fun x => negb (Nat.eqb x h)) (listeners w)) w)
  else w.

(** ** [getSize], [open], [close] *)

Definition getSize : M := fun w =>
  match filename (logger w) with
  | Some f =>
      (w, Await (OpStat f) (fun r w1 =>
         match r with
         | RSize n => (w1, Done (VNum (Int n)))
         | RError code =>
             if String.eqb code "ENOENT" then (w1, Done (VNum (Int 0)))
             else (w1, Fail (IoError code))
         | _ => (w1, Fail (failure_of r))
         end))
  | None => (w, Fail TypeError)
  end.

Definition int_of (v : value) : Z :=
  match v with
  | VNum (Int z) => z
  | _ => 0
  end.

Definition open : M := fun w =>
  if negb (truthy (filename (logger w))) then
    (upd (set_closed false) w, Done VUndefined)
  else if is_some (stream (logger w)) then
    (upd (set_closed false) w, Done VUndefined)
  else if fs_unsupported host then
    (upd (set_closed false) w, Done VUndefined)
  else
    (let* size := await_call getSize ret in
     exec modify (upd (set_fileSize (int_of size))) then
     withW (fun w1 =>
       match filename (logger w1) with
       | Some f =>
           await (OpOpenStream f) (fun r =>
             match r with
             | RStream h =>
                 modify (fun w2 =>
                   upd (set_closed false)
                     (set_listeners (listeners w2 ++ [h])
                        (upd (set_stream (Some h)) w2)))
             | _ => throw (failure_of r)
             end)
       | None => throw TypeError
       end)) w.

(** [clearTimeout(this.timer)] *)
Definition clearTimeout (id : nat) (w : World) : World :=
  set_timers (List.filter (fun t => negb (Nat.eqb (fst t) id)) (timers w)) w.

Definition close : M := fun w =>
  let w1 :=
    match timer (logger w) with
    | Some id => upd (set_timer None) (clearTimeout id w)
    | None => w
    end in
  if fs_unsupported host then
    (upd (set_stream None) (upd (set_closed true) w1), Done VUndefined)
  else
    match stream (logger w1) with
    | Some h =>
        (* closeStream: removeAllListeners('error'), stream.close() *)
        let w2 :=
          emit (EStreamClose h)
            (set_listeners
               (List.filter (fun x => negb (Nat.eqb x h)) (listeners w1))
               (upd (set_closing true) w1)) in
        (w2, Await (OpCloseStream h) (fun r w3 =>
           let w4 := upd (set_closing false) w3 in
           match r with
           | RDone =>
               (upd (set_closed true)
                  (upd (set_fileSize 0) (upd (set_stream None) w4)),
                Done VUndefined)
           | _ => (w4, Fail (failure_of r))
           end))
    | None =>
        (upd (set_closed true) (upd (set_fileSize 0) w1), Done VUndefined)
    end.

(** ** [prune] *)

Fixpoint unlink_all (dir : string) (files : list string) : M :=
  match files with
  | [] => ret VUndefined
  | file :: rest =>
      await (OpUnlink (Path_join host dir file)) (fun r =>
        match r with
        | RDone => unlink_all dir rest
        | _ => throw (failure_of r)
        end)
  end.

(** The local [prune] of the method: the files it goes on to unlink. *)
Definition prune_list (r : RegExp.re) (files : list string) (max : Z)
  : list string :=
  let oldFiles := List.filter (RegExp.test r) files in
  if Z.of_nat (List.length oldFiles) <=? max then []
  else JsArray.slice (JsArray.sort oldFiles) 0 (-1 * max).

Definition prune (dir base ext : string) : M :=
  await (OpReaddir dir) (fun r =>
    match r with
    | RNames files =>
        match RegExp.compile (base ++ "_.*" ++ ext) with
        | RegExp.Compiled re =>
            withW (fun w =>
              unlink_all dir (prune_list re files (maxFiles (logger w))))
        | RegExp.SyntaxError => throw RegExpSyntaxError
        | RegExp.Unsupported => throw OutsideModel
        end
    | _ => throw (failure_of r)
    end).

(** ** [rotate] *)

(** The [while] loop of [rotate] over the buffer it finds. *)
Fixpoint drain (buf : list string) (w : World) : World * Async :=
  match buf with
  | [] => (w, Done VUndefined)
  | msg :: rest =>
      let w1 := upd (set_buffer rest) w in
      match stream (logger w1) with
      | Some h =>
          drain rest
            (upd (set_fileSize (_fileSize (logger w1) + strlen msg))
               (emit (EWrite h msg) w1))
      | None => (w1, Fail TypeError)
      end
  end.

(** [base + '_' + dateString() + ext] *)
Definition archive_name (base ext : string) (now : Date) : string :=
  base ++ "_" ++ dateString now ++ ext.

Definition rotate : M := fun w =>
  if rotating (logger w) then (w, Done VNull)
  else if negb (truthy (filename (logger w))) then (w, Done VNull)
  else if fs_unsupported host then (w, Done VNull)
  else
    (exec modify (upd (set_rotating true)) then
     exec await_call close ret then
     withW (fun w1 =>
       match filename (logger w1) with
       | None => throw TypeError
       | Some f =>
           let ext := Path_extname host f in
           let base := Path_basename host f ext in
           let dir := Path_dirname host f in
           let rename :=
             Path_join host dir (archive_name base ext (clock w1)) in
           await (OpRename f rename) (fun r =>
             match r with
             | RDone =>
                 exec await_call open ret then
                 exec withW (fun w2 => drain (_buffer (logger w2))) then
                 exec modify (upd (set_rotating false)) then
                 exec spawn (prune dir base ext) then
                 ret (VStr rename)
             | _ => throw (failure_of r)
             end)
       end)) w.

(** The path [rotate] renames the file [f] to at the clock reading
    [now]. *)
Definition rename_target (f : string) (now : Date) : string :=
  let ext := Path_extname host f in
  let base := Path_basename host f ext in
  Path_join host (Path_dirname host f) (archive_name base ext now).

(** ** Configuration: [setFile], [setLevel], [set] *)

Definition setFile (name : string) : M :=
  withW (fun w =>
    exec assert (negb (is_some (stream (logger w))))
           "Log stream has already been created." then
    modify (upd (set_filename (Some name)))).

Definition setLevel (levelName : string) : M :=
  match levels (JsString.toUpperCase levelName) with
  | Some lv => modify (upd (set_level lv))
  | None => throw (AssertionError "Invalid log level.")
  end.

(** The [options] argument of [set]: a level name, or an object whose
    absent properties are [VUndefined]. *)
Record LoggerOptions : Type := mkOptions {
  opt_level : value;
  opt_colors : value;
  opt_timestamps : value;
  opt_console : value;
  opt_filename : value;
  opt_maxFileSize : value;
  opt_maxFiles : value
}.

Inductive options : Type :=
| OptString (s : string)
| OptObject (o : LoggerOptions).

Definition when (b : bool) (m : M) : M := if b then m else ret VUndefined.
Arguments when _ _ _ /.

Definition set (opts : options) : M :=
  match opts with
  | OptString s =>
      exec assert (negb (String.eqb s "")) "Assertion failed." then
      exec withW (fun w => assert (closed (logger w)) "Assertion failed.") then
      setLevel s
  | OptObject o =>
      exec withW (fun w => assert (closed (logger w)) "Assertion failed.") then
      exec when (negb (is_nullish (opt_level o)))
        match opt_level o with
        | VStr s => setLevel s
        | _ => throw (AssertionError "Assertion failed.")
        end then
      exec when (negb (is_nullish (opt_colors o)) && HAS_TTY host)
        match opt_colors o with
        | VBool b => modify (upd (set_colors b))
        | _ => throw (AssertionError "Assertion failed.")
        end then
      exec when (negb (is_nullish (opt_timestamps o)))
        match opt_timestamps o with
        | VBool b => modify (upd (set_timestamps b))
        | _ => throw (AssertionError "Assertion failed.")
        end then
      exec when (negb (is_nullish (opt_console o)))
        match opt_console o with
        | VBool b => modify (upd (set_console b))
        | _ => throw (AssertionError "Assertion failed.")
        end then
      exec when (negb (is_nullish (opt_filename o)))
        match opt_filename o with
        | VStr s => modify (upd (set_filename (Some s)))
        | _ => throw (AssertionError "Bad file.")
        end then
      exec when (negb (is_nullish (opt_maxFileSize o)))
        match is_uint32 (opt_maxFileSize o) with
        | Some n => modify (upd (set_maxFileSize n))
        | None => throw (AssertionError "Assertion failed.")
        end then
      when (negb (is_nullish (opt_maxFiles o)))
        match is_uint32 (opt_maxFiles o) with
        | Some n => modify (upd (set_maxFiles n))
        | None => throw (AssertionError "Assertion failed.")
        end
  end.

(** The fields the constructor assigns; [timer] starts out undefined. *)
Definition initial_logger : Logger :=
  mkLogger Levels.NONE (HAS_TTY host) MAX_FILE_SIZE MAX_ARCHIVAL_FILES
    true true true false None None ∅ false 0 [] None.

Definition initial_world (now : Date) : World :=
  mkWorld initial_logger now [] [] [] ∅ 0%nat.

(** [new Logger(options)] *)
Definition new_Logger (opts : option options) (now : Date) : World * Async :=
  match opts with
  | None => (initial_world now, Done VUndefined)
  | Some (OptString EmptyString) => (initial_world now, Done VUndefined)
  | Some o => set o (initial_world now)
  end.

(** ** The write path: [writeConsole], [writeStream], [log], [logError] *)

Definition is_object (v : value) : bool :=
  match v with
  | VError _ _ | VObject _ => true
  | _ => false
  end.

Definition module_tag (m : option string) : string :=
  match m with
  | Some s => if truthy m then "(" ++ s ++ ") " else ""
  | None => ""
  end.

Definition esc : string := String "027" EmptyString.

Definition writeConsole (lvl : nat) (m : option string) (args : list value)
  : M := fun w =>
  match nth_error levelsByVal lvl with
  | None => (w, Fail (AssertionError "Invalid log level."))
  | Some name =>
      let msg :=
        if timestamps (logger w) then "(" ++ toJSON (clock w) ++ ") "
        else "" in
      if negb (console (logger w)) then (w, Done (VBool false))
      else if negb (process_stdout host) then
        let msg := msg ++ "[" ++ name ++ "] " ++ module_tag m in
        match args with
        | obj :: _ =>
            if is_object obj then
              (emit (if Nat.eqb lvl Levels.ERROR
                     then EConsoleError [VStr msg; obj]
                     else EConsoleLog [VStr msg; obj]) w, Done VUndefined)
            else
              let msg := msg ++ format host args false in
              (emit (if Nat.eqb lvl Levels.ERROR
                     then EConsoleError [VStr msg]
                     else EConsoleLog [VStr msg]) w, Done (VBool true))
        | [] =>
            let msg := msg ++ format host args false in
            (emit (if Nat.eqb lvl Levels.ERROR
                   then EConsoleError [VStr msg]
                   else EConsoleLog [VStr msg]) w, Done (VBool true))
        end
      else
        match
          (if colors (logger w) then
             match nth_error styles lvl with
             | Some color =>
                 Some (msg ++ esc ++ "[" ++ color ++ "m[" ++ name ++ "]"
                       ++ esc ++ "[m ")
             | None => None
             end
           else Some (msg ++ "[" ++ name ++ "] "))
        with
        | None => (w, Fail (AssertionError "Assertion failed."))
        | Some msg =>
            let msg :=
              msg ++ module_tag m ++ format host args (colors (logger w))
              ++ nl in
            (emit (if Nat.eqb lvl Levels.ERROR then EStderr msg
                   else EStdout msg) w, Done (VBool true))
        end
  end.

(** The line written to the file. *)
Definition stream_line (now : Date) (name : string) (m : option string)
  (args : list value) : string :=
  "[" ++ name ++ ":" ++ (JsString.slice (toISOString now) 0 (-5) ++ "Z")
  ++ "] " ++ module_tag m ++ format host args false ++ nl.

Definition writeStream (lvl : nat) (m : option string) (args : list value)
  : M := fun w =>
  match nth_error prefixByVal lvl with
  | None => (w, Fail (AssertionError "Invalid log level."))
  | Some name =>
      if negb (is_some (stream (logger w))) && negb (rotating (logger w))
      then (w, Done VUndefined)
      else if closing (logger w) && negb (rotating (logger w))
      then (w, Done VUndefined)
      else
        let msg := stream_line (clock w) name m args in
        if rotating (logger w) then
          (upd (set_buffer (_buffer (logger w) ++ [msg])) w, Done VUndefined)
        else
          match stream (logger w) with
          | Some h =>
              let w1 :=
                upd (set_fileSize (_fileSize (logger w) + strlen msg))
                  (emit (EWrite h msg) w) in
              if maxFileSize (logger w1) <=? _fileSize (logger w1)
              then spawn rotate w1
              else (w1, Done VUndefined)
          | None => (w, Fail TypeError)
          end
  end.

Definition log (lvl : nat) (m : option string) (args : list value) : M :=
  fun w =>
  if closed (logger w) && negb (rotating (logger w)) then (w, Done VUndefined)
  else if (level (logger w) <? lvl)%nat then (w, Done VUndefined)
  else
    (exec writeConsole lvl m args then
     writeStream lvl m args) w.

Definition logError (lvl : nat) (m : option string)
  (message : string) (stack : option string) : M := fun w =>
  if closed (logger w) && negb (rotating (logger w)) then (w, Done VUndefined)
  else
    let w1 :=
      if fs_unsupported host && console (logger w)
         && (lvl <=? Levels.WARNING)%nat
      then emit (EConsoleError [VError message stack]) w
      else w in
    let msg := strip_error message in
    let msg := if Nat.eqb lvl Levels.ERROR then msg else "Error: " ++ msg in
    let msg :=
      if (lvl <=? Levels.WARNING)%nat && truthy stack then
        match stack with
        | Some st => msg ++ nl ++ after_first_line st
        | None => msg
        end
      else msg in
    log lvl m [VStr msg] w1.

(** The five leveled methods [error], [warning], [info], [debug], [spam]
    share one body up to the level constant. *)
Definition leveled (lvl : nat) (m : option string) (args : list value) : M :=
  fun w =>
  if (level (logger w) <? lvl)%nat then (w, Done VUndefined)
  else
    match args with
    | VError message stack :: _ => logError lvl m message stack w
    | _ => log lvl m args w
    end.

Definition error := leveled Levels.ERROR None.
Definition warning := leveled Levels.WARNING None.
Definition info := leveled Levels.INFO None.
Definition debug := leveled Levels.DEBUG None.
Definition spam := leveled Levels.SPAM None.

(** ** Contexts *)

(** [Logger.prototype.context] *)
Definition context (m : string) : M := fun w =>
  match contexts (logger w) !! m with
  | Some id => (w, Done (VObject id))
  | None =>
      let (id, w1) := alloc (mkLoggerContext m) w in
      (upd (set_contexts (<[m := id]> (contexts (logger w1)))) w1,
       Done (VObject id))
  end.

End Methods.

(** The methods of [LoggerContext]; [this.logger] is the logger of the
    world. *)
Module Ctx.
Section ContextMethods.

Variable host : Host.
Variable this : LoggerContext.

Definition log (lvl : nat) (args : list value) : M :=
  log host lvl (Some (module this)) args.

Definition logError (lvl : nat) (message : string) (stack : option string)
  : M :=
  logError host lvl (Some (module this)) message stack.

Definition leveled (lvl : nat) (args : list value) : M := fun w =>
  if (level (logger w) <? lvl)%nat then (w, Done VUndefined)
  else
    match args with
    | VError message stack :: _ => logError lvl message stack w
    | _ => log lvl args w
    end.

Definition error := leveled Levels.ERROR.
Definition warning := leveled Levels.WARNING.
Definition info := leveled Levels.INFO.
Definition debug := leveled Levels.DEBUG.
Definition spam := leveled Levels.SPAM.

(** [LoggerContext.prototype.context]: [new LoggerContext(this.logger,
    module)]. *)
Definition context (m : string) : M := fun w =>
  let (id, w1) := alloc (mkLoggerContext m) w in (w1, Done (VObject id)).

End ContextMethods.
End Ctx.

(** ** Memory usage: [mb], [memoryUsage], [memory] *)

(** The object returned by [process.memoryUsage()], in bytes. *)
Record MemoryUsage : Type := mkMemoryUsage {
  rss : Z;
  heapTotal : Z;
  heapUsed : Z;
  external : Z
}.

(** The object returned by [Logger.prototype.memoryUsage], in
    megabytes. *)
Record MemoryReport : Type := mkMemoryReport {
  total : Z;
  jsHeap : Z;
  jsHeapTotal : Z;
  nativeHeap : Z;
  report_external : Z
}.

(** [Math.floor(num / (1 << 20))]; on the integers a Number holds exactly
    the quotient by a power of two is exact, and [Math.floor] rounds
    down. *)
Definition mb (num : Z) : Z := num / Z.shiftl 1 20.

(** [memoryUsage()]; the argument is [process.memoryUsage()], [None] on a
    host without it. *)
Definition memoryUsage (process_memoryUsage : option MemoryUsage)
  : MemoryReport :=
  match process_memoryUsage with
  | None => mkMemoryReport 0 0 0 0 0
  | Some mem =>
      mkMemoryReport (mb (rss mem)) (mb (heapUsed mem)) (mb (heapTotal mem))
        (mb (rss mem - heapTotal mem)) (mb (external mem))
  end.

(** [Logger.prototype.memory] *)
Definition memory (host : Host) (process_memoryUsage : option MemoryUsage)
  (m : option string) : M :=
  let mem := memoryUsage process_memoryUsage in
  log host Levels.DEBUG m
    [VStr "Memory: rss=%dmb, js-heap=%d/%dmb native-heap=%dmb";
     VNum (Int (total mem)); VNum (Int (jsHeap mem));
     VNum (Int (jsHeapTotal mem)); VNum (Int (nativeHeap mem))].

(** [LoggerContext.prototype.memory] *)
Definition Ctx_memory (host : Host) (this : LoggerContext)
  (process_memoryUsage : option MemoryUsage) : M :=
  memory host process_memoryUsage (Some (module this)).

(* ===================================================================== *)
(** * Schedules *)
(* ===================================================================== *)

(** The part of a call its caller goes on with: promises that were
    started and dropped are not waited for. *)
Fixpoint main (t : Async) : Async :=
  match t with
  | Spawn _ nx => main nx
  | _ => t
  end.

(** The promises a call started and dropped, in order. *)
Fixpoint children (t : Async) : list Async :=
  match t with
  | Spawn c nx => c :: children nx
  | _ => []
  end.

(** What happens while a method is suspended: other code calls a method
    of the logger, or the host settles the awaited operation.  Each event
    happens at a clock reading. *)
Inductive event : Type :=
| Call (now : Date) (m : M)
| Settle (now : Date) (r : io_result).

(** One suspended method under a schedule of events.  The results of the
    interleaved calls are dropped. *)
Fixpoint run (t : Async) (evs : list event) (w : World) {struct evs}
  : World * Async :=
  match evs with
  | [] => (w, t)
  | Call now m :: evs' => run t evs' (fst (m (set_clock now w)))
  | Settle now r :: evs' =>
      match main t with
      | Await _ k =>
          let (w1, t1) := k r (set_clock now w) in run t1 evs' w1
      | _ => run t evs' w
      end
  end.

(** A method run to its end against a host that answers every operation
    at once; the operations it awaited are listed in order. *)
Fixpoint drive (oracle : io_op -> io_result) (t : Async) (w : World)
  {struct t} : World * Async * list io_op :=
  match t with
  | Await op k =>
      let (w1, t1) := k (oracle op) w in
      let '(w2, t2, ops) := drive oracle t1 w1 in
      (w2, t2, op :: ops)
  | Spawn c nx =>
      let '(w1, t1, ops) := drive oracle nx w in (w1, Spawn c t1, ops)
  | _ => (w, t, [])
  end.

(** A call of [writeStream] at a clock reading. *)
Record write_call : Type := mkWrite {
  wc_now : Date;
  wc_level : nat;
  wc_module : option string;
  wc_args : list value
}.

Definition write_event (host : Host) (c : write_call) : event :=
  Call (wc_now c) (writeStream host (wc_level c) (wc_module c) (wc_args c)).

(** The line a call of [writeStream] formats. *)
Definition line_of (host : Host) (c : write_call) : string :=
  stream_line host (wc_now c) (nth (wc_level c) prefixByVal "")
    (wc_module c) (wc_args c).

Definition valid_level (c : write_call) : Prop := (wc_level c < 6)%nat.

(** The total length of a list of lines. *)
Definition total_length (ls : list string) : Z :=
  fold_right (fun s acc => strlen s + acc) 0 ls.

(** A host that never fails: every stream closes, [stat] reports [size],
    the stream opened is [h], the directory lists [names]. *)
Definition cooperative (size : Z) (h : nat) (names : list string)
  (op : io_op) : io_result :=
  match op with
  | OpYield => RDone
  | OpCloseStream _ => RDone
  | OpRename _ _ => RDone
  | OpStat _ => RSize size
  | OpOpenStream _ => RStream h
  | OpReaddir _ => RNames names
  | OpUnlink _ => RDone
  end.

(** A direct write: the line goes to the stream and is counted. *)
Definition written (h : nat) (msg : string) (w : World) : World :=
  upd (set_fileSize (_fileSize (logger w) + strlen msg))
    (emit (EWrite h msg) w).

(** The clock after a list of calls. *)
Definition clock_after (ws : list write_call) (now : Date) : Date :=
  fold_left (fun _ c => wc_now c) ws now.

(** A method that ends without suspending. *)
Definition immediate (m : M) : Prop :=
  forall w, exists w', (exists v, m w = (w', Done v))
                       \/ (exists e, m w = (w', Fail e)).



(** The one retry timer: the outstanding timers are exactly the one the
    logger remembers, and it was set for 10000 ms. *)
Definition timers_ok (w : World) : Prop :=
  timers w =
  match timer (logger w) with
  | Some id => [(id, 10000)]
  | None => []
  end.

(** ** A sample host

    Used to evaluate the methods on concrete inputs: [format] prints its
    first argument when it is a string, the file system is supported,
    paths are joined with a slash, and [extname], [basename] and [dirname]
    are node's on the one file name used, [/var/log/debug.log]. *)
Module Sample.

Definition format (args : list value) (colors : bool) : string :=
  match args with
  | VStr s :: _ => s
  | _ => ""
  end.

Definition host : Host :=
  mkHost false format
    (fun _ => ".log")
    (fun _ _ => "debug")
    (fun _ => "/var/log")
    (fun dir file => dir ++ "/" ++ file)
    false true.

Definition now : Date := mkDate 2019 10 28 19 2 45 122.

(** An open logger at level [debug] writing to stream 1, with 60 bytes in
    the file and a limit of 100 bytes. *)
Definition open_logger : Logger :=
  mkLogger Levels.DEBUG false 100 2 false false false false
    (Some "/var/log/debug.log") (Some 1%nat) ∅ false 60 [] None.

Definition open_world : World :=
  mkWorld open_logger now [] [] [1%nat] ∅ 0%nat.

End Sample.

(* ===================================================================== *)
(** * Auxiliary definitions for the statements *)
(* ===================================================================== *)


(** ** The archive pattern and the active file *)

Module ActiveFile.

(** The least length of a string matched by [r] (0 for [Void], which
    matches nothing). *)
Fixpoint minlen (r : RegExp.re) : nat :=
  match r with
  | RegExp.Void => 0
  | RegExp.Eps => 0
  | RegExp.Chr _ => 1
  | RegExp.Dot => 1
  | RegExp.Cat r1 r2 => minlen r1 + minlen r2
  | RegExp.Alt r1 r2 => Nat.min (minlen r1) (minlen r2)
  | RegExp.Star _ => 0
  end.

(** No code unit of [s] has a meaning in a pattern. *)
Fixpoint literal (s : string) : bool :=
  match s with
  | EmptyString => true
  | String c s' =>
      negb (existsb (Ascii.eqb c) ["|"; "*"; "+"; "?"; "."]%char)
      && negb (RegExp.outside_fragment c)
      && literal s'
  end.

(** The parser state after the literal string [s]. *)
Fixpoint push_literal (s : string) (p : RegExp.pstate) : RegExp.pstate :=
  match s with
  | EmptyString => p
  | String c s' => push_literal s' (RegExp.push (RegExp.Chr c) p)
  end.

End ActiveFile.

(** ** Sample directories *)

Module PruneExample.

Definition t1 : string := "debug_2019-10-28_19-02-45-122.log".
Definition t2 : string := "debug_2019-10-29_07-30-00-000.log".
Definition t3 : string := "debug_2019-10-30_23-59-59-999.log".

(** The directory after three rotations, as [readdir] may list it. *)
Definition archive_listing : list string := [t3; "debug.log"; t1; "other.txt"; t2].

Definition limited (max : Z) : World :=
  upd (set_maxFiles max) Sample.open_world.

Definition pruned (max : Z) : list io_op :=
  snd (drive (cooperative 0 0 archive_listing)
         (snd (prune Sample.host "/var/log" "debug" ".log" (limited max)))
         (fst (prune Sample.host "/var/log" "debug" ".log" (limited max)))).

End PruneExample.

Module ActiveFileExample.

(** A log file named [a|b.log] and its one archive. *)
Definition odd_listing : list string :=
  ["a|b_2019-10-28_19-02-45-122.log"; "a|b.log"].

Definition odd_world : World := upd (set_maxFiles 1) Sample.open_world.

Definition unlinked : list io_op :=
  snd (drive (cooperative 0 0 odd_listing)
         (snd (prune Sample.host "/var/log" "a|b" ".log" odd_world))
         (fst (prune Sample.host "/var/log" "a|b" ".log" odd_world))).

End ActiveFileExample.

(* ===================================================================== *)
(** * Invariants of suspended methods *)
(* ===================================================================== *)

(** [P] holds again whenever the suspended method [t], or a promise it
    started, is resumed in a world where [P] holds. *)
Fixpoint keeps (P : World -> Prop) (t : Async) : Prop :=
  match t with
  | Await _ k => forall r w, P w -> P (fst (k r w)) /\ keeps P (snd (k r w))
  | Spawn c nx => keeps P c /\ keeps P nx
  | _ => True
  end.

(** The method [m] keeps [P]: at its first suspension and at every later
    one. *)
Definition preserves (P : World -> Prop) (m : M) : Prop :=
  forall w, P w -> P (fst (m w)) /\ keeps P (snd (m w)).

(** The state a logger is in between any two steps: the one retry timer,
    a level among the six, and a cache whose entries are live context
    objects carrying their module name. *)
Definition well_formed (w : World) : Prop :=
  timers_ok w /\
  (level (logger w) <= 5)%nat /\
  (forall m id, contexts (logger w) !! m = Some id ->
                heap w !! id = Some (mkLoggerContext m)) /\
  (forall id c, heap w !! id = Some c -> (id < next_id w)%nat).

(** ** Console output *)

Definition is_console (e : effect) : bool :=
  match e with
  | EConsoleError _ | EConsoleLog _ | EStdout _ | EStderr _ => true
  | _ => false
  end.

(** [w'] is [w] with the effects [es] added. *)
Definition adds_effects (w w' : World) (es : list effect) : Prop :=
  logger w' = logger w /\ clock w' = clock w /\
  effects w' = (effects w ++ es)%list /\
  timers w' = timers w /\ listeners w' = listeners w /\
  heap w' = heap w /\ next_id w' = next_id w.

(** The instant of a file line: [toISOString] to the second. *)
Definition seconds_stamp (d : Date) : string :=
  iso_year (year d) ++ "-" ++ pad 2 (month d) ++ "-" ++ pad 2 (day d)
  ++ "T" ++ pad 2 (hours d) ++ ":" ++ pad 2 (minutes d) ++ ":"
  ++ pad 2 (seconds d).

(** ** What a method leaves behind when it ends *)

(** [Q] holds wherever the call is suspended or throws, and [R] where it
    returns, provided [Q] holds whenever the call is resumed. *)
Fixpoint settles (Q R : World -> Prop) (t : Async) (w : World) : Prop :=
  match t with
  | Done _ => R w
  | Fail _ => Q w
  | Spawn _ nx => settles Q R nx w
  | Await _ k =>
      Q w /\ forall r w', Q w' -> settles Q R (snd (k r w')) (fst (k r w'))
  end.

Definition upholds (Q R : World -> Prop) (m : M) : Prop :=
  forall w, Q w -> settles Q R (snd (m w)) (fst (m w)).

(** A rotation is in progress. *)
Definition is_rotating (w : World) : Prop := rotating (logger w) = true.

(** An event that does not clear [rotating]: the host settling an
    operation, or a call that leaves the flag up. *)
Definition leaves_rotating (ev : event) : Prop :=
  match ev with
  | Settle _ _ => True
  | Call _ m => forall w, is_rotating w -> is_rotating (fst (m w))
  end.

(** ** Hosts that fail *)

Definition io_op_eqb (a b : io_op) : bool :=
  match a, b with
  | OpYield, OpYield => true
  | OpCloseStream h, OpCloseStream h' => Nat.eqb h h'
  | OpRename f t, OpRename f' t' => String.eqb f f' && String.eqb t t'
  | OpStat p, OpStat p' => String.eqb p p'
  | OpOpenStream p, OpOpenStream p' => String.eqb p p'
  | OpReaddir d, OpReaddir d' => String.eqb d d'
  | OpUnlink p, OpUnlink p' => String.eqb p p'
  | _, _ => false
  end.

(** The host [o], but the operation [bad] fails with [code]. *)
Definition failing (bad : io_op) (code : string) (o : io_op -> io_result)
  (op : io_op) : io_result :=
  if io_op_eqb op bad then RError code else o op.

(** ** What [set] leaves alone *)

(** [w'] differs from [w] at most in the seven options of [set]. *)
Definition same_but_options (w w' : World) : Prop :=
  closed (logger w') = closed (logger w) /\
  closing (logger w') = closing (logger w) /\
  stream (logger w') = stream (logger w) /\
  rotating (logger w') = rotating (logger w) /\
  _fileSize (logger w') = _fileSize (logger w) /\
  _buffer (logger w') = _buffer (logger w) /\
  contexts (logger w') = contexts (logger w) /\
  timer (logger w') = timer (logger w) /\
  clock w' = clock w /\ effects w' = effects w /\
  timers w' = timers w /\ listeners w' = listeners w /\
  heap w' = heap w /\ next_id w' = next_id w.

(* ===================================================================== *)
(* ===================================================================== *)
(** * Properties *)
(* ===================================================================== *)
(* ===================================================================== *)

(* ===================================================================== *)
(** * Facts about strings *)
(* ===================================================================== *)

Section StringFacts.


Lemma append_assoc (a b c : string) : (a ++ b) ++ c = a ++ (b ++ c).
Proof. induction a as [|x a IH]; simpl; [reflexivity | now rewrite IH]. Qed.

Lemma append_nil_r (a : string) : a ++ "" = a.
Proof. induction a as [|x a IH]; simpl; [reflexivity | now rewrite IH]. Qed.

Lemma length_append (a b : string) :
  String.length (a ++ b) = (String.length a + String.length b)%nat.
Proof. induction a as [|x a IH]; simpl; [reflexivity | now rewrite IH]. Qed.

Lemma lacks_app (c : ascii) (a b : string) :
  JsString.lacks c (a ++ b) = JsString.lacks c a && JsString.lacks c b.
Proof.
  induction a as [|x a IH]; simpl; [reflexivity |].
  rewrite IH. now rewrite andb_assoc.
Qed.

Lemma replace_all_app (c r : ascii) (a b : string) :
  JsString.replace_all c r (a ++ b)
  = JsString.replace_all c r a ++ JsString.replace_all c r b.
Proof. induction a as [|x a IH]; simpl; [reflexivity | now rewrite IH]. Qed.

Lemma replace_all_lacks (c r : ascii) (s : string) :
  JsString.lacks c s = true -> JsString.replace_all c r s = s.
Proof.
  induction s as [|x s IH]; simpl; [reflexivity |].
  intros H. apply andb_true_iff in H as [Hx Hs].
  apply negb_true_iff in Hx. rewrite Hx. now rewrite IH.
Qed.

Lemma replace_first_app_lacks (c r : ascii) (a b : string) :
  JsString.lacks c a = true ->
  JsString.replace_first c r (a ++ b) = a ++ JsString.replace_first c r b.
Proof.
  induction a as [|x a IH]; simpl; [reflexivity |].
  intros H. apply andb_true_iff in H as [Hx Hs].
  apply negb_true_iff in Hx. rewrite Hx. now rewrite IH.
Qed.

Lemma substring_prefix (a b : string) :
  substring 0 (String.length a) (a ++ b) = a.
Proof.
  induction a as [|x a IH]; simpl.
  - destruct b; reflexivity.
  - now rewrite IH.
Qed.

(** [slice(0, -1)] drops the last code unit. *)
Lemma slice_drop_last (s : string) (c : ascii) :
  JsString.slice (s ++ String c "") 0 (-1) = s.
Proof.
  unfold JsString.slice, JsString.rel_index.
  rewrite length_append. simpl String.length.
  replace (0 <? 0) with false by reflexivity.
  replace (-1 <? 0) with true by reflexivity.
  rewrite Z.min_l by lia.
  rewrite Z.max_l by lia.
  rewrite Z.max_l by lia.
  replace (Z.to_nat 0) with 0%nat by reflexivity.
  replace (Z.to_nat (Z.of_nat (String.length s + 1) + -1 - 0))
    with (String.length s) by lia.
  apply substring_prefix.
Qed.

Lemma digit_char_range (n : Z) :
  exists d, 0 <= d <= 9 /\ n mod 10 = d /\ digit_char n = digit_char d.
Proof.
  exists (n mod 10). pose proof (Z.mod_pos_bound n 10 ltac:(lia)).
  repeat split; try lia.
  unfold digit_char. now rewrite Z.mod_mod by lia.
Qed.

Lemma digit_char_is_digit (n : Z) : is_digit (digit_char n) = true.
Proof.
  destruct (digit_char_range n) as (d & Hd & _ & ->).
  assert (d = 0 \/ d = 1 \/ d = 2 \/ d = 3 \/ d = 4 \/ d = 5 \/ d = 6
          \/ d = 7 \/ d = 8 \/ d = 9) as H by lia.
  repeat (destruct H as [-> | H]; [reflexivity |]). now subst.
Qed.

Lemma pad_lacks (c : ascii) (k : nat) (n : Z) :
  is_digit c = false -> JsString.lacks c (pad k n) = true.
Proof.
  intros Hc. revert n. induction k as [|k IH]; intros n; simpl; [reflexivity |].
  rewrite lacks_app, IH. simpl. rewrite andb_true_r.
  apply negb_true_iff. destruct (Ascii.eqb_spec (digit_char n) c) as [E|]; [|reflexivity].
  pose proof (digit_char_is_digit n) as D. rewrite E in D. congruence.
Qed.

Lemma pad_length (k : nat) (n : Z) : String.length (pad k n) = k.
Proof.
  revert n. induction k as [|k IH]; intros n; simpl; [reflexivity |].
  rewrite length_append, IH. simpl. lia.
Qed.

Lemma iso_year_lacks (c : ascii) (y : Z) :
  is_digit c = false -> c <> "-"%char -> c <> "+"%char ->
  JsString.lacks c (iso_year y) = true.
Proof.
  intros Hd Hm Hp. unfold iso_year.
  destruct ((0 <=? y) && (y <=? 9999)); [now apply pad_lacks |].
  rewrite lacks_app, pad_lacks by assumption. rewrite andb_true_r.
  destruct (y <? 0); cbn [JsString.lacks]; rewrite andb_true_r;
    apply negb_true_iff; apply Ascii.eqb_neq; congruence.
Qed.

Lemma dateString_stamp (d : Date) : dateString d = stamp d.
Proof.
  unfold dateString, toJSON, stamp.
  repeat rewrite replace_all_app.
  rewrite (replace_all_lacks _ _ (iso_year _)) by (apply iso_year_lacks; [reflexivity | discriminate..]).
  repeat rewrite (replace_all_lacks _ _ (pad _ _)) by (apply pad_lacks; reflexivity).
  cbn [JsString.replace_all Ascii.eqb Bool.eqb].
  (* the first 'T' *)
  rewrite (replace_first_app_lacks "T") by (apply iso_year_lacks; [reflexivity | discriminate..]).
  cbn [append JsString.replace_first Ascii.eqb Bool.eqb].
  rewrite (replace_first_app_lacks "T") by (apply pad_lacks; reflexivity).
  cbn [append JsString.replace_first Ascii.eqb Bool.eqb].
  rewrite (replace_first_app_lacks "T") by (apply pad_lacks; reflexivity).
  cbn [append JsString.replace_first Ascii.eqb Bool.eqb].
  (* the first '.' *)
  rewrite (replace_first_app_lacks ".") by (apply iso_year_lacks; [reflexivity | discriminate..]).
  cbn [append JsString.replace_first Ascii.eqb Bool.eqb].
  do 5 (rewrite (replace_first_app_lacks ".") by (apply pad_lacks; reflexivity);
        cbn [append JsString.replace_first Ascii.eqb Bool.eqb]).
  (* slice(0, -1) *)
  etransitivity; [| apply (slice_drop_last _ "Z")].
  f_equal. repeat (rewrite append_assoc; cbn [append]). reflexivity.
Qed.

(** ** Comparison by code units *)

Lemma lex_Eq_r (c : comparison) : lex c Eq = c.
Proof. now destruct c. Qed.

Lemma ascii_compare_refl (a : ascii) : Ascii.compare a a = Eq.
Proof. unfold Ascii.compare. apply N.compare_refl. Qed.

Lemma compare_cons (a b : ascii) (s t : string) :
  String.compare (String a s) (String b t)
  = lex (Ascii.compare a b) (String.compare s t).
Proof. cbn [String.compare]. unfold lex. now destruct (Ascii.compare a b). Qed.

Lemma compare_refl (s : string) : String.compare s s = Eq.
Proof.
  induction s as [|a s IH]; [reflexivity |].
  now rewrite compare_cons, ascii_compare_refl.
Qed.

Lemma compare_app_prefix (p a b : string) :
  String.compare (p ++ a) (p ++ b) = String.compare a b.
Proof.
  induction p as [|x p IH]; cbn [append]; [reflexivity |].
  now rewrite compare_cons, ascii_compare_refl.
Qed.

Lemma compare_app_eqlen (a1 a2 b1 b2 : string) :
  String.length a1 = String.length a2 ->
  String.compare (a1 ++ b1) (a2 ++ b2)
  = lex (String.compare a1 a2) (String.compare b1 b2).
Proof.
  revert a2. induction a1 as [|x a1 IH]; intros [|y a2] H;
    try discriminate; cbn [append]; [reflexivity |].
  rewrite !compare_cons, IH by (simpl in H; lia).
  now destruct (Ascii.compare x y).
Qed.

Lemma digit_char_compare (a b : Z) :
  0 <= a <= 9 -> 0 <= b <= 9 ->
  Ascii.compare (digit_char a) (digit_char b) = (a ?= b).
Proof.
  intros Ha Hb.
  assert (a = 0 \/ a = 1 \/ a = 2 \/ a = 3 \/ a = 4 \/ a = 5 \/ a = 6
          \/ a = 7 \/ a = 8 \/ a = 9) as A by lia.
  assert (b = 0 \/ b = 1 \/ b = 2 \/ b = 3 \/ b = 4 \/ b = 5 \/ b = 6
          \/ b = 7 \/ b = 8 \/ b = 9) as B by lia.
  repeat (destruct A as [-> | A]);
  repeat (destruct B as [-> | B]); subst; reflexivity.
Qed.

Lemma compare_pad (k : nat) (n m : Z) :
  0 <= n < 10 ^ Z.of_nat k -> 0 <= m < 10 ^ Z.of_nat k ->
  String.compare (pad k n) (pad k m) = (n ?= m).
Proof.
  revert n m. induction k as [|k IH]; intros n m Hn Hm.
  - cbn in Hn, Hm. assert (n = 0) by lia. assert (m = 0) by lia. now subst.
  - cbn [pad]. rewrite compare_app_eqlen by now rewrite !pad_length.
    rewrite Nat2Z.inj_succ, Z.pow_succ_r in Hn, Hm by lia.
    rewrite IH by (split; [apply Z.div_pos; lia | apply Z.div_lt_upper_bound; lia]).
    rewrite compare_cons. cbn [String.compare]. rewrite lex_Eq_r.
    pose proof (Z.mod_pos_bound n 10 ltac:(lia)) as Bn.
    pose proof (Z.mod_pos_bound m 10 ltac:(lia)) as Bm.
    destruct (digit_char_range n) as (dn & Hdn & En & ->).
    destruct (digit_char_range m) as (dm & Hdm & Em & ->).
    rewrite digit_char_compare by assumption.
    pose proof (Z.div_mod n 10 ltac:(lia)) as Dn.
    pose proof (Z.div_mod m 10 ltac:(lia)) as Dm.
    unfold lex.
    destruct (Z.compare_spec (n / 10) (m / 10));
    destruct (Z.compare_spec dn dm);
    destruct (Z.compare_spec n m); try reflexivity; lia.
Qed.

End StringFacts.

Section RotateFacts.

Variable host : Host.

Lemma total_length_app (a b : list string) :
  total_length (a ++ b)%list = total_length a + total_length b.
Proof.
  induction a as [|x a IH]; [reflexivity |].
  change (total_length ((x :: a) ++ b)%list)
    with (strlen x + total_length (a ++ b)%list).
  change (total_length (x :: a)) with (strlen x + total_length a). lia.
Qed.

(** The loop of [rotate] writes the whole buffer, in order, to the
    stream it finds, and counts every line. *)
Lemma drain_spec (buf : list string) :
  forall lv co mfs mf ts cs cl cg fn h cx ro fsz tm ck ef tms ls hp nid,
  drain buf
    (mkWorld (mkLogger lv co mfs mf ts cs cl cg fn (Some h) cx ro fsz buf tm)
       ck ef tms ls hp nid)
  = (mkWorld
       (mkLogger lv co mfs mf ts cs cl cg fn (Some h) cx ro
          (fsz + total_length buf) [] tm)
       ck (ef ++ map (EWrite h) buf)%list tms ls hp nid,
     Done VUndefined).
Proof.
  induction buf as [|msg rest IH]; intros.
  - cbn. rewrite Z.add_0_r, app_nil_r. reflexivity.
  - cbn -[strlen total_length Z.add].
    rewrite IH.
    change (total_length (msg :: rest)) with (strlen msg + total_length rest).
    cbn [map].
    rewrite <- app_assoc. cbn [app].
    now rewrite Z.add_assoc.
Qed.

Lemma rotate_drive (w : World) (f : string) (size : Z) (h : nat)
  (names : list string) :
  rotating (logger w) = false ->
  filename (logger w) = Some f ->
  f <> "" ->
  fs_unsupported host = false ->
  exists w' c ops,
    drive (cooperative size h names) (snd (rotate host w)) (fst (rotate host w))
    = (w', Spawn c (Done (VStr (rename_target host f (clock w)))), ops)
    /\ In (OpRename f (rename_target host f (clock w))) ops
    /\ rotating (logger w') = false
    /\ stream (logger w') = Some h.
Proof.
  intros Hr Hf Hne Hu.
  destruct w as [[lv co mfs mf ts cs cl cg fn st cx ro fsz buf tm] ck ef tms ls hp nid].
  cbn in Hr, Hf. subst ro fn.
  assert (String.eqb f "" = false) as Ht by now apply String.eqb_neq.
  unfold rotate, close, open, getSize.
  destruct st as [h0|]; destruct tm as [id|].
  all: cbn -[dateString archive_name drain prune]; rewrite ?Hu, ?Ht;
    cbn -[dateString archive_name drain prune].
  all: rewrite ?Hu, ?Ht; cbn -[dateString archive_name drain prune].
  all: rewrite drain_spec; unfold prune;
    cbn -[dateString archive_name RegExp.compile].
  all: do 3 eexists; split; [reflexivity |].
  all: split; [cbn -[dateString archive_name]; tauto | split; reflexivity].
Qed.

End RotateFacts.

(* ===================================================================== *)
(** * Archive names *)
(* ===================================================================== *)

Lemma dateString_lacks (c : ascii) (d : Date) :
  is_digit c = false -> c <> "-"%char -> c <> "+"%char -> c <> "_"%char ->
  JsString.lacks c (dateString d) = true.
Proof.
  intros Hd Hm Hp Hu. rewrite dateString_stamp. unfold stamp.
  assert (forall x : ascii, c <> x -> negb (Ascii.eqb x c) = true) as N.
  { intros x Hx. apply negb_true_iff, Ascii.eqb_neq. congruence. }
  repeat first
    [ rewrite lacks_app
    | rewrite pad_lacks by assumption
    | rewrite iso_year_lacks by assumption
    | rewrite (N _ Hm)
    | rewrite (N _ Hu)
    | progress cbn [JsString.lacks append andb] ].
  reflexivity.
Qed.

Lemma archive_name_compare (base ext : string) (d1 d2 : Date) :
  valid_date d1 -> valid_date d2 ->
  0 <= year d1 <= 9999 -> 0 <= year d2 <= 9999 ->
  String.compare (archive_name base ext d1) (archive_name base ext d2)
  = Date_compare d1 d2.
Proof.
  intros (_ & M1 & D1 & H1 & N1 & S1 & L1) (_ & M2 & D2 & H2 & N2 & S2 & L2)
    Y1 Y2.
  unfold archive_name. rewrite compare_app_prefix.
  cbn [append]. rewrite compare_cons, ascii_compare_refl. cbn [lex].
  rewrite !dateString_stamp. unfold stamp, iso_year.
  replace ((0 <=? year d1) && (year d1 <=? 9999)) with true
    by (symmetry; apply andb_true_iff; split; apply Z.leb_le; lia).
  replace ((0 <=? year d2) && (year d2 <=? 9999)) with true
    by (symmetry; apply andb_true_iff; split; apply Z.leb_le; lia).
  repeat (rewrite append_assoc; cbn [append]).
  unfold Date_compare.
  repeat first
    [ rewrite compare_app_eqlen by now rewrite !pad_length
    | rewrite compare_pad by (cbn; lia)
    | rewrite compare_cons, ascii_compare_refl; cbn [lex] ].
  now rewrite compare_refl, lex_Eq_r.
Qed.

(** C6, as stated, fails past the year 9999: [toJSON] prints the year
    10000 as [+010000], and [+] sorts before every digit, so the archive
    of the later instant has the smaller name. *)
Lemma archive_order_breaks_at_year_10000 :
  let d1 := mkDate 9999 12 31 23 59 59 999 in
  let d2 := mkDate 10000 1 1 0 0 0 0 in
  valid_date d1 /\ valid_date d2 /\
  Date_compare d1 d2 = Lt /\
  archive_name "debug" ".log" d1 = "debug_9999-12-31_23-59-59-999.log" /\
  archive_name "debug" ".log" d2 = "debug_+010000-01-01_00-00-00-000.log" /\
  String.compare (archive_name "debug" ".log" d1)
                 (archive_name "debug" ".log" d2) = Gt.
Proof.
  cbv zeta. unfold valid_date. cbn [year month day hours minutes seconds millis].
  repeat split; try lia; reflexivity.
Qed.

(** C6 (amended).  [rotate] renames the log file to
    [Path.join(dir, base + '_' + dateString() + ext)] and returns that
    path; the timestamp is the [toJSON] text of the current instant with
    its separators replaced and has no colon and no period; and for
    instants in the years 0 to 9999 the code-unit order of the names of two
    archives of one base name and extension is the chronological order of
    their instants. *)
Theorem archive_name_format_and_order (host : Host) :
  (forall w f size h names,
     rotating (logger w) = false ->
     filename (logger w) = Some f ->
     f <> "" ->
     fs_unsupported host = false ->
     exists w' c ops,
       drive (cooperative size h names)
         (snd (rotate host w)) (fst (rotate host w))
       = (w', Spawn c (Done (VStr (rename_target host f (clock w)))), ops)
       /\ In (OpRename f (rename_target host f (clock w))) ops) /\
  (forall f now,
     rename_target host f now
     = Path_join host (Path_dirname host f)
         (Path_basename host f (Path_extname host f) ++ "_"
          ++ dateString now ++ Path_extname host f)) /\
  (forall d,
     dateString d = stamp d /\
     JsString.lacks ":" (dateString d) = true /\
     JsString.lacks "." (dateString d) = true) /\
  (forall base ext d1 d2,
     valid_date d1 -> valid_date d2 ->
     0 <= year d1 <= 9999 -> 0 <= year d2 <= 9999 ->
     String.compare (archive_name base ext d1) (archive_name base ext d2)
     = Date_compare d1 d2).
Proof.
  repeat split.
  - intros w f size h names Hr Hf Hne Hu.
    destruct (rotate_drive host w f size h names Hr Hf Hne Hu)
      as (w' & c & ops & E & I & _).
    now exists w', c, ops.
  - apply dateString_stamp.
  - apply dateString_lacks; [reflexivity | discriminate..].
  - apply dateString_lacks; [reflexivity | discriminate..].
  - intros. now apply archive_name_compare.
Qed.

Lemma archive_name_format_and_order_witness :
  (exists w' c ops,
     drive (cooperative 0 2%nat [])
       (snd (rotate Sample.host Sample.open_world))
       (fst (rotate Sample.host Sample.open_world))
     = (w', Spawn c (Done (VStr "/var/log/debug_2019-10-28_19-02-45-122.log")),
        ops)
     /\ In (OpRename "/var/log/debug.log"
              "/var/log/debug_2019-10-28_19-02-45-122.log") ops) /\
  String.compare
    (archive_name "debug" ".log" (mkDate 2019 10 28 19 2 45 122))
    (archive_name "debug" ".log" (mkDate 2019 10 28 19 2 45 123))
  = Lt.
Proof.
  split.
  - apply (proj1 (archive_name_format_and_order Sample.host)
             Sample.open_world "/var/log/debug.log" 0 2%nat []);
      [reflexivity | reflexivity | discriminate | reflexivity].
  - rewrite (proj2 (proj2 (proj2 (archive_name_format_and_order Sample.host)))).
    + reflexivity.
    + unfold valid_date; cbn; lia.
    + unfold valid_date; cbn; lia.
    + cbn; lia.
    + cbn; lia.
Defined.

(* ===================================================================== *)
(** * Rotation *)
(* ===================================================================== *)

Section Rotation.

Variable host : Host.

Lemma rotate_guarded (w : World) :
  rotating (logger w) = true \/
  truthy (filename (logger w)) = false \/
  fs_unsupported host = true ->
  rotate host w = (w, Done VNull).
Proof.
  intros H. unfold rotate.
  destruct (rotating (logger w)); [reflexivity |].
  destruct (truthy (filename (logger w))); [| reflexivity].
  destruct (fs_unsupported host); [reflexivity |].
  destruct H as [H | [H | H]]; discriminate.
Qed.

(** A call that passes the guards raises the flag before it suspends. *)
Lemma rotate_raises_flag (w : World) :
  rotating (logger w) = false ->
  truthy (filename (logger w)) = true ->
  fs_unsupported host = false ->
  rotating (logger (fst (rotate host w))) = true.
Proof.
  intros Hr Ht Hu. unfold rotate. rewrite Hr, Ht, Hu. cbn [negb].
  destruct w as [[lv co mfs mf ts cs cl cg fn st cx ro fsz buf tm] ck ef tms ls hp nid].
  unfold close. cbn. rewrite Hu. destruct tm, st; reflexivity.
Qed.

(** C4.  [rotate] called while a rotation is in flight, or without a file
    name, or on an unsupported file system, returns [null] at once and
    leaves the logger as it was; so a second call made while the first is
    suspended does nothing; a call that passes the guards and whose host
    operations succeed returns the archive path. *)
Theorem rotate_guards_and_result :
  (forall w,
     rotating (logger w) = true \/
     truthy (filename (logger w)) = false \/
     fs_unsupported host = true ->
     rotate host w = (w, Done VNull)) /\
  (forall w,
     rotate host (fst (rotate host w)) = (fst (rotate host w), Done VNull)) /\
  (forall w f size h names,
     rotating (logger w) = false ->
     filename (logger w) = Some f ->
     f <> "" ->
     fs_unsupported host = false ->
     exists w' c ops,
       drive (cooperative size h names)
         (snd (rotate host w)) (fst (rotate host w))
       = (w', Spawn c (Done (VStr (rename_target host f (clock w)))), ops)
       /\ rotating (logger w') = false
       /\ stream (logger w') = Some h).
Proof.
  split; [exact rotate_guarded | split].
  - intros w. apply rotate_guarded.
    destruct (rotating (logger w)) eqn:Hr.
    { left. rewrite rotate_guarded by now left. exact Hr. }
    destruct (truthy (filename (logger w))) eqn:Ht.
    2:{ right; left. rewrite rotate_guarded by (right; now left). exact Ht. }
    destruct (fs_unsupported host) eqn:Hu.
    { right; right. reflexivity. }
    left. now apply rotate_raises_flag.
  - intros w f size h names Hr Hf Hne Hu.
    destruct (rotate_drive host w f size h names Hr Hf Hne Hu)
      as (w' & c & ops & E & _ & R & S).
    now exists w', c, ops.
Qed.

End Rotation.

Lemma rotate_guards_and_result_witness :
  rotate Sample.host
    (upd (set_rotating true) Sample.open_world)
  = (upd (set_rotating true) Sample.open_world, Done VNull)
  /\
  exists w' c ops,
    drive (cooperative 0 2%nat [])
      (snd (rotate Sample.host Sample.open_world))
      (fst (rotate Sample.host Sample.open_world))
    = (w', Spawn c (Done (VStr "/var/log/debug_2019-10-28_19-02-45-122.log")),
       ops)
    /\ rotating (logger w') = false
    /\ stream (logger w') = Some 2%nat.
Proof.
  split.
  - apply (proj1 (rotate_guards_and_result Sample.host)). left. reflexivity.
  - apply (proj2 (proj2 (rotate_guards_and_result Sample.host))
             Sample.open_world "/var/log/debug.log" 0 2%nat []);
      [reflexivity | reflexivity | discriminate | reflexivity].
Defined.


(* ===================================================================== *)
(** * The write path *)
(* ===================================================================== *)

Section WritePath.

Variable host : Host.

(** C3 (amended).  A direct write adds the length of the line to the byte
    count, and starts [rotate] exactly when the new count is greater than
    or equal to [maxFileSize]; the caller gets its result back while the
    rotation is suspended at its first [await]. *)
Theorem writeStream_threshold (w : World) (h lvl : nat) (name : string)
  (m : option string) (args : list value) :
  nth_error prefixByVal lvl = Some name ->
  rotating (logger w) = false ->
  closing (logger w) = false ->
  stream (logger w) = Some h ->
  let msg := stream_line host (clock w) name m args in
  let w1 := written h msg w in
  _fileSize (logger w1) = _fileSize (logger w) + strlen msg /\
  effects w1 = (effects w ++ [EWrite h msg])%list /\
  (maxFileSize (logger w) <= _fileSize (logger w) + strlen msg ->
     writeStream host lvl m args w
     = (fst (rotate host w1), Spawn (snd (rotate host w1)) (Done VUndefined))
     /\ (truthy (filename (logger w)) = true ->
         fs_unsupported host = false ->
         rotating (logger (fst (rotate host w1))) = true /\
         exists k, snd (rotate host w1) = Await (OpCloseStream h) k)) /\
  (_fileSize (logger w) + strlen msg < maxFileSize (logger w) ->
     writeStream host lvl m args w = (w1, Done VUndefined)) /\
  main (snd (writeStream host lvl m args w)) = Done VUndefined.
Proof.
  intros Hn Hr Hc Hs msg w1.
  destruct w as [[lv co mfs mf ts cs cl cg fn st cx ro fsz buf tm] ck ef tms ls hp nid].
  cbn in Hr, Hc, Hs. subst ro cg st.
  assert (forall b : bool,
            writeStream host lvl m args
              (mkWorld (mkLogger lv co mfs mf ts cs cl false fn (Some h) cx
                          false fsz buf tm) ck ef tms ls hp nid)
            = if mfs <=? fsz + strlen msg
              then (fst (rotate host w1),
                    Spawn (snd (rotate host w1)) (Done VUndefined))
              else (w1, Done VUndefined)) as E.
  { intros _. subst w1 msg. unfold writeStream, written. rewrite Hn.
    cbn -[rotate stream_line strlen Z.add Z.leb].
    destruct (mfs <=? _); [| reflexivity].
    destruct (rotate host _); reflexivity. }
  specialize (E true). subst w1 msg. unfold written in *.
  cbn -[rotate stream_line strlen Z.add Z.leb writeStream] in *.
  split; [reflexivity | split; [reflexivity | split; [| split]]].
  - intros Hle. apply Z.leb_le in Hle. rewrite E, Hle.
    split; [reflexivity |].
    intros Ht Hu.
    split.
    + apply rotate_raises_flag; [reflexivity | exact Ht | exact Hu].
    + destruct fn as [f|]; [| discriminate].
      unfold rotate. cbn -[stream_line strlen Z.add truthy].
      rewrite Ht, Hu. unfold close.
      cbn -[stream_line strlen Z.add truthy]. rewrite Hu.
      destruct tm; cbn -[stream_line strlen Z.add truthy];
        eexists; reflexivity.
  - intros Hlt. apply Z.leb_gt in Hlt. now rewrite E, Hlt.
  - rewrite E. now destruct (mfs <=? _).
Qed.

End WritePath.

(** C3, as stated, fails when the count reaches [maxFileSize] exactly:
    60 bytes in the file, a limit of 100 and a line of 40 bytes give a
    count of 100, which does not exceed the limit, and the rotation is
    started. *)
Lemma rotation_starts_at_equality :
  let w := Sample.open_world in
  let r := writeStream Sample.host Levels.DEBUG None [VStr "fourteen chars"] w in
  _fileSize (logger w) = 60 /\
  maxFileSize (logger w) = 100 /\
  _fileSize (logger (written 1 (stream_line Sample.host (clock w) "D" None
                                  [VStr "fourteen chars"]) w)) = 100 /\
  ~ (maxFileSize (logger w) < 100) /\
  rotating (logger (fst r)) = true /\
  List.length (children (snd r)) = 1%nat.
Proof. cbv zeta. repeat split; try reflexivity. cbn. lia. Qed.

Lemma writeStream_threshold_witness :
  let w := Sample.open_world in
  let short := stream_line Sample.host (clock w) "D" None [VStr "short"] in
  let long :=
    stream_line Sample.host (clock w) "D" None [VStr "fourteen chars"] in
  writeStream Sample.host Levels.DEBUG None [VStr "short"] w
  = (written 1 short w, Done VUndefined) /\
  writeStream Sample.host Levels.DEBUG None [VStr "fourteen chars"] w
  = (fst (rotate Sample.host (written 1 long w)),
     Spawn (snd (rotate Sample.host (written 1 long w))) (Done VUndefined)).
Proof.
  cbv zeta.
  pose proof (writeStream_threshold Sample.host Sample.open_world 1
                Levels.DEBUG "D" None [VStr "short"]
                eq_refl eq_refl eq_refl eq_refl) as (_ & _ & _ & S & _).
  pose proof (writeStream_threshold Sample.host Sample.open_world 1
                Levels.DEBUG "D" None [VStr "fourteen chars"]
                eq_refl eq_refl eq_refl eq_refl) as (_ & _ & L & _).
  split.
  - apply S. reflexivity.
  - apply L. discriminate.
Defined.

(* ===================================================================== *)
(** * Writes during a rotation *)
(* ===================================================================== *)

Section Buffering.

Variable host : Host.

Lemma prefix_of_valid (c : write_call) :
  valid_level c ->
  nth_error prefixByVal (wc_level c)
  = Some (nth (wc_level c) prefixByVal "").
Proof.
  unfold valid_level. intros H.
  destruct (wc_level c) as [|[|[|[|[|[|n]]]]]]; try reflexivity. lia.
Qed.

(** While [rotating] is set, [writeStream] only appends to the buffer. *)
Lemma writeStream_rotating (w : World) (c : write_call) :
  rotating (logger w) = true ->
  valid_level c ->
  writeStream host (wc_level c) (wc_module c) (wc_args c)
    (set_clock (wc_now c) w)
  = (upd (set_buffer (_buffer (logger w) ++ [line_of host c]))
       (set_clock (wc_now c) w),
     Done VUndefined).
Proof.
  intros Hr Hv. unfold writeStream. rewrite (prefix_of_valid c Hv).
  cbn -[stream_line nth]. rewrite Hr. cbn -[stream_line nth].
  rewrite !andb_false_r. reflexivity.
Qed.

(** A run of writes during a rotation leaves the suspended method alone
    and lengthens the buffer, in call order. *)
Lemma run_buffered (ws : list write_call) :
  Forall valid_level ws ->
  forall t rest lv co mfs mf ts cs cl cg fn st cx fsz buf tm ck ef tms ls hp nid,
  run t (map (write_event host) ws ++ rest)
    (mkWorld (mkLogger lv co mfs mf ts cs cl cg fn st cx true fsz buf tm)
       ck ef tms ls hp nid)
  = run t rest
      (mkWorld
         (mkLogger lv co mfs mf ts cs cl cg fn st cx true fsz
            (buf ++ map (line_of host) ws) tm)
         (clock_after ws ck) ef tms ls hp nid).
Proof.
  induction 1 as [|c ws Hc Hws IH]; intros.
  - cbn. now rewrite app_nil_r.
  - cbn [map app run write_event].
    pose proof (writeStream_rotating
      (mkWorld (mkLogger lv co mfs mf ts cs cl cg fn st cx true fsz buf tm)
         ck ef tms ls hp nid) c eq_refl Hc) as E.
    cbn -[writeStream line_of] in E. cbn -[writeStream line_of].
    rewrite E. cbn -[line_of]. rewrite IH.
    now rewrite <- app_assoc.
Qed.

Lemma run_settle (op : io_op) (k : io_result -> World -> World * Async)
  (now : Date) (r : io_result) (rest : list event) (w : World) :
  run (Await op k) (Settle now r :: rest) w
  = (let (w1, t1) := k r (set_clock now w) in run t1 rest w1).
Proof. reflexivity. Qed.

Lemma rotate_run (w : World) (f : string) (h0 h1 : nat) (size : Z)
  (ws1 ws2 ws3 ws4 ws5 ws6 ws7 : list write_call)
  (d1 d2 d3 d4 d5 d6 d7 : Date) :
  rotating (logger w) = false ->
  filename (logger w) = Some f ->
  f <> "" ->
  fs_unsupported host = false ->
  stream (logger w) = Some h0 ->
  Forall valid_level ws1 -> Forall valid_level ws2 ->
  Forall valid_level ws3 -> Forall valid_level ws4 ->
  Forall valid_level ws5 -> Forall valid_level ws6 ->
  Forall valid_level ws7 ->
  let we := map (write_event host) in
  let evs :=
    (we ws1 ++ Settle d1 RDone ::          (* the old stream has closed *)
     we ws2 ++ Settle d2 RDone ::          (* rotate resumes after close() *)
     we ws3 ++ Settle d3 RDone ::          (* the file is renamed *)
     we ws4 ++ Settle d4 (RSize size) ::   (* stat of the new file *)
     we ws5 ++ Settle d5 RDone ::          (* open resumes after getSize() *)
     we ws6 ++ Settle d6 (RStream h1) ::   (* the new stream is open *)
     we ws7 ++ [Settle d7 RDone])%list in  (* rotate resumes after open() *)
  let lines :=
    map (line_of host) (ws1 ++ ws2 ++ ws3 ++ ws4 ++ ws5 ++ ws6 ++ ws7)%list in
  exists w' c,
    run (snd (rotate host w)) evs (fst (rotate host w))
    = (w', Spawn c (Done (VStr (rename_target host f d2)))) /\
    effects w'
    = (effects w ++ EStreamClose h0
         :: map (EWrite h1) (_buffer (logger w) ++ lines))%list /\
    _buffer (logger w') = [] /\
    _fileSize (logger w')
    = size + total_length (_buffer (logger w) ++ lines)%list /\
    rotating (logger w') = false /\
    stream (logger w') = Some h1.
Proof.
  intros Hr Hf Hne Hu Hs V1 V2 V3 V4 V5 V6 V7 we evs lines.
  destruct w as [[lv co mfs mf ts cs cl cg fn st cx ro fsz buf tm] ck ef tms ls hp nid].
  cbn in Hr, Hf, Hs. subst ro fn st evs lines we.
  assert (String.eqb f "" = false) as Ht by now apply String.eqb_neq.
  unfold rotate, close, open, getSize.
  cbn -[dateString archive_name drain prune run write_event line_of]. rewrite ?Hu, ?Ht.
  cbn -[dateString archive_name drain prune run write_event line_of]. rewrite ?Hu, ?Ht.
  destruct tm as [id|].
  all: cbn -[dateString archive_name drain prune run write_event line_of].
  all: do 2 eexists; split;
    [ do 7 (rewrite run_buffered by assumption; rewrite run_settle;
            cbn -[dateString archive_name drain prune run write_event line_of];
            rewrite ?Hu, ?Ht;
            cbn -[dateString archive_name drain prune run write_event line_of]);
      rewrite drain_spec; unfold prune;
      cbn -[dateString archive_name RegExp.compile line_of];
      reflexivity
    | cbn -[line_of total_length];
      rewrite !map_app, <- !app_assoc; repeat split; reflexivity ].
Qed.

(** The same when there is no stream to close: [close] ends at once and
    the rotation has six suspension points. *)
Lemma rotate_run_idle (w : World) (f : string) (h1 : nat) (size : Z)
  (ws2 ws3 ws4 ws5 ws6 ws7 : list write_call)
  (d2 d3 d4 d5 d6 d7 : Date) :
  rotating (logger w) = false ->
  filename (logger w) = Some f ->
  f <> "" ->
  fs_unsupported host = false ->
  stream (logger w) = None ->
  Forall valid_level ws2 ->
  Forall valid_level ws3 -> Forall valid_level ws4 ->
  Forall valid_level ws5 -> Forall valid_level ws6 ->
  Forall valid_level ws7 ->
  let we := map (write_event host) in
  let evs :=
    (we ws2 ++ Settle d2 RDone ::
     we ws3 ++ Settle d3 RDone ::
     we ws4 ++ Settle d4 (RSize size) ::
     we ws5 ++ Settle d5 RDone ::
     we ws6 ++ Settle d6 (RStream h1) ::
     we ws7 ++ [Settle d7 RDone])%list in
  let lines :=
    map (line_of host) (ws2 ++ ws3 ++ ws4 ++ ws5 ++ ws6 ++ ws7)%list in
  exists w' c,
    run (snd (rotate host w)) evs (fst (rotate host w))
    = (w', Spawn c (Done (VStr (rename_target host f d2)))) /\
    effects w'
    = (effects w ++ map (EWrite h1) (_buffer (logger w) ++ lines))%list /\
    _buffer (logger w') = [] /\
    _fileSize (logger w')
    = size + total_length (_buffer (logger w) ++ lines)%list /\
    rotating (logger w') = false /\
    stream (logger w') = Some h1.
Proof.
  intros Hr Hf Hne Hu Hs V2 V3 V4 V5 V6 V7 we evs lines.
  destruct w as [[lv co mfs mf ts cs cl cg fn st cx ro fsz buf tm] ck ef tms ls hp nid].
  cbn in Hr, Hf, Hs. subst ro fn st evs lines we.
  assert (String.eqb f "" = false) as Ht by now apply String.eqb_neq.
  unfold rotate, close, open, getSize.
  cbn -[dateString archive_name drain prune run write_event line_of]. rewrite ?Hu, ?Ht.
  cbn -[dateString archive_name drain prune run write_event line_of]. rewrite ?Hu, ?Ht.
  destruct tm as [id|].
  all: cbn -[dateString archive_name drain prune run write_event line_of].
  all: do 2 eexists; split;
    [ do 6 (rewrite run_buffered by assumption; rewrite run_settle;
            cbn -[dateString archive_name drain prune run write_event line_of];
            rewrite ?Hu, ?Ht;
            cbn -[dateString archive_name drain prune run write_event line_of]);
      rewrite drain_spec; unfold prune;
      cbn -[dateString archive_name RegExp.compile line_of];
      reflexivity
    | cbn -[line_of total_length];
      rewrite !map_app, <- !app_assoc; repeat split; reflexivity ].
Qed.

(** C1.  A write issued while [rotating] is set is appended to the
    buffer and reaches no stream; when [rotate] has reopened the file it
    writes the buffered lines to the new stream in the order they were
    issued and adds the length of each to the byte count, so that every
    line issued during the rotation appears in the new file exactly once,
    whatever the moments at which the writes were interleaved with the
    steps of the rotation.  A schedule gives, for each suspension point
    of [rotate] in turn (the old stream closing, [rotate] resuming after
    [close], the rename, the [stat] of the new file, [open] resuming
    after [getSize], the new stream opening, [rotate] resuming after
    [open]), the writes issued while it is suspended there; without an
    old stream the first point is absent. *)
Theorem rotation_buffers_then_drains :
  (forall w c,
     rotating (logger w) = true ->
     valid_level c ->
     let w0 := set_clock (wc_now c) w in
     let r := writeStream host (wc_level c) (wc_module c) (wc_args c) w0 in
     r = (upd (set_buffer (_buffer (logger w) ++ [line_of host c])) w0,
          Done VUndefined) /\
     effects (fst r) = effects w /\
     stream (logger (fst r)) = stream (logger w) /\
     _fileSize (logger (fst r)) = _fileSize (logger w)) /\
  (forall w f h0 h1 size ws1 ws2 ws3 ws4 ws5 ws6 ws7 d1 d2 d3 d4 d5 d6 d7,
     rotating (logger w) = false ->
     filename (logger w) = Some f ->
     f <> "" ->
     fs_unsupported host = false ->
     stream (logger w) = Some h0 ->
     Forall valid_level ws1 -> Forall valid_level ws2 ->
     Forall valid_level ws3 -> Forall valid_level ws4 ->
     Forall valid_level ws5 -> Forall valid_level ws6 ->
     Forall valid_level ws7 ->
     let we := map (write_event host) in
     let evs :=
       (we ws1 ++ Settle d1 RDone ::
        we ws2 ++ Settle d2 RDone ::
        we ws3 ++ Settle d3 RDone ::
        we ws4 ++ Settle d4 (RSize size) ::
        we ws5 ++ Settle d5 RDone ::
        we ws6 ++ Settle d6 (RStream h1) ::
        we ws7 ++ [Settle d7 RDone])%list in
     let lines :=
       map (line_of host)
         (ws1 ++ ws2 ++ ws3 ++ ws4 ++ ws5 ++ ws6 ++ ws7)%list in
     exists w' c,
       run (snd (rotate host w)) evs (fst (rotate host w))
       = (w', Spawn c (Done (VStr (rename_target host f d2)))) /\
       effects w'
       = (effects w ++ EStreamClose h0
            :: map (EWrite h1) (_buffer (logger w) ++ lines))%list /\
       _buffer (logger w') = [] /\
       _fileSize (logger w')
       = size + total_length (_buffer (logger w) ++ lines)%list /\
       rotating (logger w') = false /\
       stream (logger w') = Some h1) /\
  (forall w f h1 size ws2 ws3 ws4 ws5 ws6 ws7 d2 d3 d4 d5 d6 d7,
     rotating (logger w) = false ->
     filename (logger w) = Some f ->
     f <> "" ->
     fs_unsupported host = false ->
     stream (logger w) = None ->
     Forall valid_level ws2 ->
     Forall valid_level ws3 -> Forall valid_level ws4 ->
     Forall valid_level ws5 -> Forall valid_level ws6 ->
     Forall valid_level ws7 ->
     let we := map (write_event host) in
     let evs :=
       (we ws2 ++ Settle d2 RDone ::
        we ws3 ++ Settle d3 RDone ::
        we ws4 ++ Settle d4 (RSize size) ::
        we ws5 ++ Settle d5 RDone ::
        we ws6 ++ Settle d6 (RStream h1) ::
        we ws7 ++ [Settle d7 RDone])%list in
     let lines :=
       map (line_of host) (ws2 ++ ws3 ++ ws4 ++ ws5 ++ ws6 ++ ws7)%list in
     exists w' c,
       run (snd (rotate host w)) evs (fst (rotate host w))
       = (w', Spawn c (Done (VStr (rename_target host f d2)))) /\
       effects w'
       = (effects w ++ map (EWrite h1) (_buffer (logger w) ++ lines))%list /\
       _buffer (logger w') = [] /\
       _fileSize (logger w')
       = size + total_length (_buffer (logger w) ++ lines)%list /\
       rotating (logger w') = false /\
       stream (logger w') = Some h1).
Proof.
  split; [| split].
  - intros w c Hr Hv w0 r. subst r w0.
    rewrite (writeStream_rotating w c Hr Hv). repeat split.
  - intros. now apply rotate_run.
  - intros. now apply rotate_run_idle.
Qed.

End Buffering.

Lemma rotation_buffers_then_drains_witness :
  let c1 := mkWrite Sample.now Levels.INFO None [VStr "first"] in
  let c2 := mkWrite Sample.now Levels.DEBUG (Some "net") [VStr "second"] in
  let d := Sample.now in
  effects
    (fst (writeStream Sample.host (wc_level c1) (wc_module c1) (wc_args c1)
            (set_clock (wc_now c1)
               (upd (set_rotating true) Sample.open_world))))
  = effects (upd (set_rotating true) Sample.open_world) /\
  exists w' c,
    run (snd (rotate Sample.host Sample.open_world))
      (map (write_event Sample.host) [c1] ++ Settle d RDone ::
       map (write_event Sample.host) [] ++ Settle d RDone ::
       map (write_event Sample.host) [c2] ++ Settle d RDone ::
       map (write_event Sample.host) [] ++ Settle d (RSize 0) ::
       map (write_event Sample.host) [] ++ Settle d RDone ::
       map (write_event Sample.host) [] ++ Settle d (RStream 2%nat) ::
       map (write_event Sample.host) [] ++ [Settle d RDone])%list
      (fst (rotate Sample.host Sample.open_world))
    = (w', Spawn c
             (Done (VStr (rename_target Sample.host "/var/log/debug.log" d))))
    /\
    effects w'
    = (effects Sample.open_world ++ EStreamClose 1
         :: map (EWrite 2)
              (_buffer (logger Sample.open_world)
               ++ map (line_of Sample.host)
                    ([c1] ++ [] ++ [c2] ++ [] ++ [] ++ [] ++ [])))%list /\
    _buffer (logger w') = [] /\
    _fileSize (logger w')
    = 0 + total_length
            (_buffer (logger Sample.open_world)
             ++ map (line_of Sample.host)
                  ([c1] ++ [] ++ [c2] ++ [] ++ [] ++ [] ++ []))%list /\
    rotating (logger w') = false /\
    stream (logger w') = Some 2%nat.
Proof.
  intros c1 c2 d. split.
  { apply (proj1 (rotation_buffers_then_drains Sample.host)
             (upd (set_rotating true) Sample.open_world) c1);
      [reflexivity | subst c1; cbv; lia]. }
  apply (proj1 (proj2 (rotation_buffers_then_drains Sample.host))
           Sample.open_world "/var/log/debug.log" 1%nat 2%nat 0
           [c1] [] [c2] [] [] [] [] d d d d d d d);
    try reflexivity; try discriminate.
  all: repeat constructor; unfold valid_level; cbn; lia.
Defined.

(* ===================================================================== *)
(** * Recovery from a stream error *)
(* ===================================================================== *)

Section Recovery.

Variable host : Host.









End Recovery.


(* ===================================================================== *)
(** * Log calls on a closed logger *)
(* ===================================================================== *)

Section Closed.

Variable host : Host.






End Closed.


(* ===================================================================== *)
(** * Configuration *)
(* ===================================================================== *)

Section Configuration.

Variable host : Host.


Lemma is_uint32_spec (v : value) (n : Z) :
  is_uint32 v = Some n <-> v = VNum (Int n) /\ 0 <= n < 2 ^ 32.
Proof.
  unfold is_uint32. split.
  - destruct v as [| | |[z|]| | |]; try discriminate.
    destruct (Z.eqb_spec (z mod 2 ^ 32) z) as [E|]; [| discriminate].
    intros [= ->]. split; [reflexivity |].
    rewrite <- E. apply Z.mod_pos_bound. lia.
  - intros [-> H]. rewrite Z.mod_small by exact H.
    now rewrite Z.eqb_refl.
Qed.

Lemma is_uint32_none (z : Z) :
  z < 0 \/ 2 ^ 32 <= z -> is_uint32 (VNum (Int z)) = None.
Proof.
  intros H. destruct (is_uint32 (VNum (Int z))) as [n|] eqn:E; [| reflexivity].
  apply is_uint32_spec in E as [[= ->] B]. lia.
Qed.


Lemma immediate_modify (f : World -> World) : immediate (modify f).
Proof. intros w. exists (f w). left. now exists VUndefined. Qed.

Lemma immediate_throw (e : exn) : immediate (throw e).
Proof. intros w. exists w. right. now exists e. Qed.

Lemma immediate_ret (v : value) : immediate (ret v).
Proof. intros w. exists w. left. now exists v. Qed.

Lemma immediate_setLevel (s : string) : immediate (setLevel s).
Proof.
  unfold setLevel. destruct (levels _);
    [apply immediate_modify | apply immediate_throw].
Qed.

Lemma immediate_when (b : bool) (m : M) : immediate m -> immediate (when b m).
Proof. destruct b; [trivial | intros _; apply immediate_ret]. Qed.

Lemma immediate_assert_closed :
  immediate (withW (fun w => assert (closed (logger w)) "Assertion failed.")).
Proof.
  intros w. exists w. cbn. destruct (closed (logger w)); cbn; eauto.
Qed.

Create HintDb immediate.

#[local] Hint Resolve immediate_modify immediate_throw immediate_ret
  immediate_setLevel immediate_when immediate_assert_closed : immediate.





End Configuration.



(* ===================================================================== *)
(** * Contexts *)
(* ===================================================================== *)

(** [Logger.prototype.context] creates the context of a module once and
    returns the same object from then on. *)
Lemma context_cached (m : string) (w : World) :
  context m (fst (context m w))
  = (fst (context m w), snd (context m w)).
Proof.
  unfold context.
  destruct (contexts (logger w) !! m) as [id|] eqn:E; cbn.
  - now rewrite E.
  - now rewrite lookup_insert_eq.
Qed.

(** C9 fails on [LoggerContext.prototype.context]: the context obtained
    from [logger.context('net')] is object 0; asking that context for
    ['net'] builds a new object 1, which the cache never sees; the logger
    still answers with object 0. *)
Theorem context_of_context_is_fresh :
  let w0 := initial_world Sample.host Sample.now in
  let r1 := context "net" w0 in
  let r2 := Ctx.context "net" (fst r1) in
  let r3 := context "net" (fst r2) in
  snd r1 = Done (VObject 0) /\
  snd r2 = Done (VObject 1) /\
  snd r3 = Done (VObject 0) /\
  heap (fst r2) !! 1%nat = Some (mkLoggerContext "net") /\
  contexts (logger (fst r2)) !! "net" = Some 0%nat.
Proof. cbv zeta. repeat split; vm_compute; reflexivity. Qed.

(* ===================================================================== *)
(** * The default sort *)
(* ===================================================================== *)

Section Sorting.

Lemma compare_trans (c : comparison) (x : string) :
  forall y z, String.compare x y = c -> String.compare y z = c ->
              String.compare x z = c.
Proof.
  induction x as [|a x IH]; intros [|b y] [|d z]; cbn; try congruence.
  unfold Ascii.compare.
  destruct (N.compare_spec (N_of_ascii a) (N_of_ascii b)) as [E1|L1|G1];
  destruct (N.compare_spec (N_of_ascii b) (N_of_ascii d)) as [E2|L2|G2];
  destruct (N.compare_spec (N_of_ascii a) (N_of_ascii d)) as [E3|L3|G3];
    try congruence; try lia; try (intros <- ?; congruence); try apply IH.
Qed.

Lemma ascending_trans (x y z : string) :
  ascending x y -> ascending y z -> ascending x z.
Proof.
  unfold ascending, String.leb. intros H1 H2.
  destruct (String.compare x y) eqn:E1; try discriminate;
  destruct (String.compare y z) eqn:E2; try discriminate.
  - apply String.compare_eq_iff in E1, E2. subst. now rewrite compare_refl.
  - apply String.compare_eq_iff in E1. subst. now rewrite E2.
  - apply String.compare_eq_iff in E2. subst. now rewrite E1.
  - now rewrite (compare_trans Lt x y z E1 E2).
Qed.

Lemma In_insert (x y : string) (l : list string) :
  In y (JsArray.insert x l) -> y = x \/ In y l.
Proof.
  induction l as [|z l IH]; cbn.
  - intros [<- | []]. now left.
  - destruct (String.leb x z); cbn.
    + intros [<- | H]; [now left | now right].
    + intros [<- | H]; [right; now left |].
      destruct (IH H) as [-> | H']; [now left | right; now right].
Qed.

Lemma In_sort (y : string) (l : list string) :
  In y (JsArray.sort l) -> In y l.
Proof.
  induction l as [|x l IH]; cbn; [tauto |].
  intros H. destruct (In_insert _ _ _ H) as [-> | H']; [now left |].
  right. now apply IH.
Qed.

Lemma In_firstn_list {A : Type} (n : nat) (l : list A) (x : A) :
  In x (firstn n l) -> In x l.
Proof.
  revert l. induction n as [|n IH]; intros [|y l]; cbn; try tauto.
  intros [<- | H]; [now left | right; now apply IH].
Qed.

Lemma In_skipn_list {A : Type} (n : nat) (l : list A) (x : A) :
  In x (skipn n l) -> In x l.
Proof.
  revert l. induction n as [|n IH]; intros [|y l]; cbn; try tauto.
  intros H. right. now apply IH.
Qed.

Lemma insert_perm (x : string) (l : list string) :
  Permutation (JsArray.insert x l) (x :: l).
Proof.
  induction l as [|y l IH]; cbn; [reflexivity |].
  destruct (String.leb x y); [reflexivity |].
  rewrite IH. apply perm_swap.
Qed.

Lemma sort_perm (l : list string) : Permutation (JsArray.sort l) l.
Proof.
  induction l as [|x l IH]; cbn; [reflexivity |].
  rewrite insert_perm. now apply perm_skip.
Qed.

Lemma insert_sorted (x : string) (l : list string) :
  StronglySorted ascending l -> StronglySorted ascending (JsArray.insert x l).
Proof.
  induction 1 as [|y l Hs IH Hy]; cbn.
  - repeat constructor.
  - destruct (String.leb x y) eqn:E.
    + constructor; [now constructor |].
      constructor; [exact E |].
      eapply List.Forall_impl; [| exact Hy].
      intros z Hz. now apply (ascending_trans x y z).
    + constructor; [exact IH |].
      assert (ascending y x) as Hyx.
      { destruct (String.leb_total x y) as [H | H]; [congruence | exact H]. }
      apply List.Forall_forall. intros z Hz.
      apply (Permutation_in _ (insert_perm x l)) in Hz.
      destruct Hz as [<- | Hz]; [exact Hyx |].
      now apply (proj1 (List.Forall_forall _ _) Hy).
Qed.

Lemma sort_sorted (l : list string) : StronglySorted ascending (JsArray.sort l).
Proof.
  induction l as [|x l IH]; cbn; [constructor | now apply insert_sorted].
Qed.

(** In a sorted list, whatever is among the first [k] entries comes
    before whatever is left. *)
Lemma sorted_split (l : list string) :
  StronglySorted ascending l ->
  forall k x y, In x (firstn k l) -> In y (skipn k l) -> ascending x y.
Proof.
  induction 1 as [|z l Hs IH Hz]; intros [|k] x y; cbn; try tauto.
  intros [<- | Hx] Hy.
  - apply (proj1 (List.Forall_forall _ _) Hz). now apply In_skipn_list in Hy.
  - now apply (IH k).
Qed.

End Sorting.

(* ===================================================================== *)
(** * Pruning *)
(* ===================================================================== *)

Section Pruning.

Variable host : Host.

Lemma insert_length (x : string) (l : list string) :
  List.length (JsArray.insert x l) = S (List.length l).
Proof.
  induction l as [|y l IH]; cbn; [reflexivity |].
  destruct (String.leb x y); cbn; [reflexivity | now rewrite IH].
Qed.

Lemma sort_length (l : list string) :
  List.length (JsArray.sort l) = List.length l.
Proof.
  induction l as [|x l IH]; cbn; [reflexivity |].
  now rewrite insert_length, IH.
Qed.

(** [slice(0, -0)] is [slice(0, 0)]: with [maxFiles = 0] nothing is
    selected for deletion. *)
Lemma prune_list_zero (r : RegExp.re) (files : list string) :
  prune_list r files 0 = [].
Proof.
  unfold prune_list, JsArray.slice, JsString.rel_index.
  destruct (_ <=? 0); [reflexivity |].
  replace (-1 * 0) with 0 by reflexivity.
  replace (0 <? 0) with false by reflexivity.
  rewrite !Z.min_l by lia. reflexivity.
Qed.

(** With [maxFiles > 0] the files selected are the first
    [count - maxFiles] of the sorted candidates. *)
Lemma prune_list_positive (r : RegExp.re) (files : list string) (max : Z) :
  0 < max ->
  prune_list r files max
  = firstn (Z.to_nat (Z.of_nat (List.length (List.filter (RegExp.test r) files))
                      - max))
      (JsArray.sort (List.filter (RegExp.test r) files)).
Proof.
  intros Hmax. unfold prune_list.
  set (old := List.filter (RegExp.test r) files).
  destruct (Z.leb_spec (Z.of_nat (List.length old)) max) as [Hle | Hgt].
  - replace (Z.to_nat (Z.of_nat (List.length old) - max)) with 0%nat by lia.
    reflexivity.
  - unfold JsArray.slice, JsString.rel_index. rewrite sort_length.
    replace (0 <? 0) with false by reflexivity.
    replace (-1 * max <? 0) with true by (symmetry; apply Z.ltb_lt; lia).
    rewrite Z.min_l by lia. rewrite Z.max_l by lia.
    replace (Z.to_nat 0) with 0%nat by reflexivity. cbn [skipn].
    f_equal. lia.
Qed.

(** With [maxFiles > 0] every file selected sorts before every candidate
    that is kept, and [min(count, maxFiles)] candidates are kept. *)
Lemma prune_list_oldest (r : RegExp.re) (files : list string) (max : Z) :
  0 < max ->
  let old := List.filter (RegExp.test r) files in
  let k := Z.to_nat (Z.of_nat (List.length old) - max) in
  let kept := skipn k (JsArray.sort old) in
  Permutation (prune_list r files max ++ kept) old /\
  Z.of_nat (List.length kept) = Z.min (Z.of_nat (List.length old)) max /\
  forall x y, In x (prune_list r files max) -> In y kept -> ascending x y.
Proof.
  intros Hmax old k kept. rewrite (prune_list_positive r files max Hmax).
  fold old. fold k. subst kept.
  split; [| split].
  - rewrite firstn_skipn. apply sort_perm.
  - rewrite length_skipn, sort_length. lia.
  - intros x y. apply sorted_split, sort_sorted.
Qed.

Lemma unlink_all_drive (size : Z) (h : nat) (names : list string)
  (dir : string) (l : list string) (w : World) :
  drive (cooperative size h names)
    (snd (unlink_all host dir l w)) (fst (unlink_all host dir l w))
  = (w, Done VUndefined, map (fun f => OpUnlink (Path_join host dir f)) l).
Proof.
  induction l as [|f l IH]; cbn; [reflexivity |].
  destruct (unlink_all host dir l w) as [w1 t1] eqn:E. cbn in IH.
  now rewrite IH.
Qed.

(** [prune] against a host that lists [files] and unlinks what it is
    asked to: the directory is read once and the selected files are
    unlinked in order. *)
Lemma prune_drive (dir base ext : string) (files : list string)
  (r : RegExp.re) (w : World) :
  RegExp.compile (base ++ "_.*" ++ ext) = RegExp.Compiled r ->
  drive (cooperative 0 0 files)
    (snd (prune host dir base ext w)) (fst (prune host dir base ext w))
  = (w, Done VUndefined,
     OpReaddir dir
     :: map (fun f => OpUnlink (Path_join host dir f))
          (prune_list r files (maxFiles (logger w)))).
Proof.
  intros E. unfold prune.
  cbn -[RegExp.compile append unlink_all prune_list]. rewrite E.
  cbn -[unlink_all prune_list].
  pose proof (unlink_all_drive 0 0 files dir
                (prune_list r files (maxFiles (logger w))) w) as D.
  destruct (unlink_all host dir _ w) as [w1 t1]. cbn in D. now rewrite D.
Qed.

End Pruning.


(** With [maxFiles = 2] and archives [t1 < t2 < t3], only [t1] is
    unlinked. *)
Example prune_keeps_two :
  PruneExample.pruned 2
  = [OpReaddir "/var/log";
     OpUnlink "/var/log/debug_2019-10-28_19-02-45-122.log"].
Proof. vm_compute. reflexivity. Qed.

(** C2 fails on the code at [maxFiles = 0]: [set] accepts 0, the claim
    has [prune] retain min(3, 0) = 0 archives, and the code, through
    [slice(0, -0)], unlinks nothing and retains all three. *)
Theorem prune_with_zero_maxFiles_keeps_everything :
  maxFiles (logger (PruneExample.limited 0)) = 0 /\
  List.length
    (List.filter (RegExp.test
       (match RegExp.compile "debug_.*.log" with
        | RegExp.Compiled r => r
        | _ => RegExp.Void
        end)) PruneExample.archive_listing) = 3%nat /\
  PruneExample.pruned 0 = [OpReaddir "/var/log"] /\
  (forall r files, prune_list r files 0 = []).
Proof.
  split; [reflexivity | split; [vm_compute; reflexivity | split]].
  - vm_compute. reflexivity.
  - exact prune_list_zero.
Qed.

(* ===================================================================== *)
(** * The active file and the archive pattern *)
(* ===================================================================== *)


Section ActiveFileFacts.

Import ActiveFile.

Local Open Scope nat_scope.

Lemma nullable_minlen (r : RegExp.re) :
  RegExp.nullable r = true -> minlen r = 0.
Proof.
  induction r as [| |a| |r1 IH1 r2 IH2|r1 IH1 r2 IH2|r IH]; cbn; intros H;
    try discriminate; try reflexivity.
  - apply andb_true_iff in H as [H1 H2]. rewrite IH1, IH2; auto.
  - apply orb_true_iff in H as [H | H]; [rewrite IH1 | rewrite IH2]; auto;
      lia.
Qed.

Lemma deriv_minlen (c : ascii) (r : RegExp.re) :
  minlen r <= S (minlen (RegExp.deriv c r)).
Proof.
  induction r as [| |a| |r1 IH1 r2 IH2|r1 IH1 r2 IH2|r IH]; cbn; try lia.
  destruct (RegExp.nullable r1) eqn:N; cbn; [| lia].
  rewrite (nullable_minlen r1 N). lia.
Qed.

Lemma match_prefix_minlen (s : string) :
  forall r, RegExp.match_prefix r s = true -> minlen r <= String.length s.
Proof.
  induction s as [|c s IH]; intros r; cbn.
  - rewrite orb_false_r. intros N. rewrite (nullable_minlen r N). lia.
  - intros H. apply orb_true_iff in H as [N | H].
    + rewrite (nullable_minlen r N). lia.
    + apply IH in H. pose proof (deriv_minlen c r). lia.
Qed.

Lemma test_minlen (r : RegExp.re) (s : string) :
  RegExp.test r s = true -> minlen r <= String.length s.
Proof.
  induction s as [|c s IH]; cbn [RegExp.test].
  - rewrite orb_false_r. apply match_prefix_minlen.
  - intros H. apply orb_true_iff in H as [H | H].
    + now apply match_prefix_minlen in H.
    + apply IH in H. cbn. lia.
Qed.

Lemma parse_literal (s rest : string) (p : RegExp.pstate) :
  literal s = true ->
  RegExp.parse (s ++ rest) p = RegExp.parse rest (push_literal s p).
Proof.
  revert p. induction s as [|c s IH]; intros p H; [reflexivity |].
  cbn [literal] in H.
  apply andb_true_iff in H as [H Hs]. apply andb_true_iff in H as [Hm Ho].
  apply negb_true_iff in Hm, Ho.
  cbn [existsb] in Hm.
  repeat (apply orb_false_iff in Hm as [? Hm]).
  cbn [append RegExp.parse push_literal].
  repeat match goal with
  | E : Ascii.eqb c ?x = false |- _ => rewrite E; clear E
  end.
  rewrite Ho. now apply IH.
Qed.

Lemma flush_push_literal (s : string) (p : RegExp.pstate) :
  minlen (RegExp.flush (push_literal s p))
  = minlen (RegExp.flush p) + String.length s
  /\ RegExp.alts (push_literal s p) = RegExp.alts p.
Proof.
  revert p. induction s as [|c s IH]; intros p; cbn [push_literal].
  - cbn. split; [lia | reflexivity].
  - destruct (IH (RegExp.push (RegExp.Chr c) p)) as [E A].
    rewrite E, A. cbn. split; [lia | reflexivity].
Qed.

(** The pattern built from a literal base name and extension matches
    only strings longer than [base ++ ext]. *)
Lemma archive_pattern_minlen (base ext : string) :
  literal base = true ->
  ext = EmptyString \/
  (exists tail, ext = String "." tail /\ literal tail = true) ->
  exists r,
    RegExp.compile (base ++ "_.*" ++ ext)%string = RegExp.Compiled r
    /\ String.length (base ++ ext)%string < minlen r.
Proof.
  intros Hb He. unfold RegExp.compile.
  rewrite parse_literal by exact Hb.
  set (p0 := RegExp.mkP None RegExp.Eps None RegExp.QNone).
  destruct (flush_push_literal base p0) as [Eb Ab].
  cbn in Eb, Ab.
  rewrite length_append.
  destruct He as [-> | (tail & -> & Ht)].
  - cbn -[push_literal]. eexists. split; [reflexivity |].
    unfold RegExp.close_alt. cbn -[push_literal]. rewrite Ab.
    cbn -[push_literal]. rewrite Eb. lia.
  - cbn -[push_literal append].
    change ("_.*" ++ String "." tail)%string
      with (String "_" (String "." (String "*" (String "." tail)))).
    cbn -[push_literal].
    rewrite <- (append_nil_r tail).
    rewrite parse_literal by exact Ht.
    cbn -[push_literal]. eexists. split; [reflexivity |].
    unfold RegExp.close_alt.
    match goal with
    | |- context [push_literal tail ?p] =>
        destruct (flush_push_literal tail p) as [Et At]
    end.
    rewrite At. cbn -[push_literal]. rewrite Ab in Et |- *.
    rewrite Et. cbn -[push_literal].
    rewrite Eb, append_nil_r. lia.
Qed.

End ActiveFileFacts.

Section ActiveFileSafety.

Import ActiveFile.

(** Whatever [prune] unlinks matched the pattern. *)
Lemma prune_list_matches (r : RegExp.re) (files : list string) (max : Z)
  (x : string) :
  In x (prune_list r files max) -> In x files /\ RegExp.test r x = true.
Proof.
  unfold prune_list, JsArray.slice.
  destruct (_ <=? max); [intros [] |].
  intros H. apply In_firstn_list, In_skipn_list, In_sort in H.
  now apply filter_In in H.
Qed.

(** When the base name and the extension have no character with a
    meaning in a pattern (but the dot that starts the extension), the
    pattern compiles and [prune] never unlinks the active file. *)
Lemma prune_spares_active_file (base ext : string) :
  literal base = true ->
  ext = EmptyString \/
  (exists tail, ext = String "." tail /\ literal tail = true) ->
  exists r,
    RegExp.compile (base ++ "_.*" ++ ext) = RegExp.Compiled r /\
    forall files max, ~ In (base ++ ext) (prune_list r files max).
Proof.
  intros Hb He.
  destruct (archive_pattern_minlen base ext Hb He) as (r & E & L).
  exists r. split; [exact E |].
  intros files max H. apply prune_list_matches in H as [_ T].
  apply test_minlen in T. lia.
Qed.

End ActiveFileSafety.


(** C10 fails on the code when the base name has a character with a
    meaning in a pattern: for the log file [a|b.log] the pattern is
    [a|b_.*.log], which every name with an [a] matches; the active file
    is a candidate although it has no [a|b_] in it, it sorts first, and
    with [maxFiles = 1] it is the file [prune] unlinks. *)
Theorem prune_unlinks_active_file :
  ("a|b" ++ ".log")%string = "a|b.log" /\
  JsString.includes "a|b_" "a|b.log" = false /\
  (exists r, RegExp.compile "a|b_.*.log" = RegExp.Compiled r
             /\ RegExp.test r "a|b.log" = true) /\
  ActiveFileExample.unlinked
  = [OpReaddir "/var/log"; OpUnlink "/var/log/a|b.log"].
Proof.
  split; [reflexivity | split; [reflexivity | split]].
  - eexists. split; [reflexivity | vm_compute; reflexivity].
  - vm_compute. reflexivity.
Qed.

(** The same slip with an everyday name: for [v1.2.log] the dot of the
    base name matches any character, and [v1x2_old.log] is a candidate. *)
Example prune_candidate_without_base :
  exists r, RegExp.compile "v1.2_.*.log" = RegExp.Compiled r
            /\ RegExp.test r "v1x2_old.log" = true
            /\ JsString.includes "v1.2_" "v1x2_old.log" = false.
Proof. eexists. repeat split; vm_compute; reflexivity. Qed.

(* ===================================================================== *)
(** * The well-formed logger *)
(* ===================================================================== *)

(** Case analysis on every scrutinee of the goal. *)
Ltac branches :=
  repeat match goal with
  | |- context [match ?x with _ => _ end] =>
      lazymatch x with
      | context [match _ with _ => _ end] => fail
      | _ => destruct x eqn:?
      end
  end.

Section WellFormed.

Variable host : Host.

Lemma keeps_bind (P : World -> Prop) (f : value -> M) :
  (forall v, preserves P (f v)) ->
  forall t w, P w -> keeps P t ->
  P (fst (bind t f w)) /\ keeps P (snd (bind t f w)).
Proof.
  intros Hf.
  fix IH 1. intros [v | e | c nx | op k] w Hw Ht; cbn [bind].
  - now apply Hf.
  - split; [exact Hw | exact I].
  - destruct Ht as [Hc Hn].
    destruct (IH nx w Hw Hn) as [H1 H2].
    destruct (bind nx f w) as [w' t']. cbn in *. tauto.
  - cbn. split; [exact Hw |].
    intros r w1 Hw1. destruct (Ht r w1 Hw1) as [H1 H2].
    specialize (IH (snd (k r w1)) (fst (k r w1)) H1 H2).
    destruct (k r w1) as [w2 t']. exact IH.
Qed.

Section Combinators.

Variable P : World -> Prop.

Lemma preserves_ret (v : value) : preserves P (ret v).
Proof. intros w H. split; [exact H | exact I]. Qed.

Lemma preserves_throw (e : exn) : preserves P (throw e).
Proof. intros w H. split; [exact H | exact I]. Qed.

Lemma preserves_modify (f : World -> World) :
  (forall w, P w -> P (f w)) -> preserves P (modify f).
Proof. intros Hf w H. split; [now apply Hf | exact I]. Qed.

Lemma preserves_seqM (m : M) (f : value -> M) :
  preserves P m -> (forall v, preserves P (f v)) -> preserves P (seqM m f).
Proof.
  intros Hm Hf w H. unfold seqM. destruct (Hm w H) as [H1 H2].
  destruct (m w) as [w1 t]. now apply keeps_bind.
Qed.

Lemma preserves_await (op : io_op) (k : io_result -> M) :
  (forall r, preserves P (k r)) -> preserves P (await op k).
Proof.
  intros Hk w H. split; [exact H |]. cbn. intros r w1 H1. now apply Hk.
Qed.

Lemma preserves_await_call (m : M) (f : value -> M) :
  preserves P m -> (forall v, preserves P (f v)) ->
  preserves P (await_call m f).
Proof.
  intros Hm Hf. apply preserves_seqM; [exact Hm |].
  intros v. apply preserves_await. intros _. apply Hf.
Qed.

Lemma preserves_spawn (m : M) : preserves P m -> preserves P (spawn m).
Proof.
  intros Hm w H. unfold spawn. destruct (Hm w H) as [H1 H2].
  destruct (m w) as [w1 t]. cbn in *. tauto.
Qed.

Lemma preserves_withW (f : World -> M) :
  (forall w0, preserves P (f w0)) -> preserves P (withW f).
Proof. intros Hf w H. now apply Hf. Qed.

Lemma preserves_assert (b : bool) (msg : string) : preserves P (assert b msg).
Proof. destruct b; [apply preserves_ret | apply preserves_throw]. Qed.

Lemma preserves_when (b : bool) (m : M) :
  preserves P m -> preserves P (when b m).
Proof. destruct b; [trivial | intros _; apply preserves_ret]. Qed.

End Combinators.

(** A change that leaves the timers, the level and the contexts alone
    keeps the logger well formed. *)
Lemma well_formed_frame (w w' : World) :
  timers w' = timers w ->
  timer (logger w') = timer (logger w) ->
  level (logger w') = level (logger w) ->
  contexts (logger w') = contexts (logger w) ->
  heap w' = heap w ->
  next_id w' = next_id w ->
  well_formed w -> well_formed w'.
Proof.
  unfold well_formed, timers_ok.
  intros -> -> -> -> -> ->. trivial.
Qed.

Ltac framed :=
  match goal with
  | H : well_formed ?w |- well_formed _ =>
      apply (well_formed_frame w); [reflexivity.. | exact H]
  end.

Lemma well_formed_initial (now : Date) :
  well_formed (initial_world host now).
Proof.
  split; [reflexivity | split; [cbn; unfold Levels.NONE; lia | split]].
  - intros m id H. cbn in H. now rewrite lookup_empty in H.
  - intros id c H. cbn in H. now rewrite lookup_empty in H.
Qed.

Lemma well_formed_retry (w : World) : well_formed w -> well_formed (retry w).
Proof.
  intros H. unfold retry. destruct (timer (logger w)) eqn:E; [exact H |].
  destruct H as (T & L & C & N). unfold timers_ok in T. rewrite E in T.
  repeat split; cbn.
  - unfold timers_ok. cbn. now rewrite T.
  - exact L.
  - exact C.
  - intros id c Hc. apply N in Hc. lia.
Qed.

Lemma well_formed_handleError (w : World) :
  well_formed w -> well_formed (handleError w).
Proof.
  intros H. unfold handleError. apply well_formed_retry.
  destruct (stream (logger w)); framed.
Qed.

Lemma well_formed_stream_error (h : nat) (w : World) :
  well_formed w -> well_formed (stream_error h w).
Proof.
  intros H. unfold stream_error. destruct (existsb _ _); [| exact H].
  apply well_formed_handleError. framed.
Qed.

Lemma preserves_reopen : preserves well_formed (reopen host).
Proof.
  intros w H. unfold reopen.
  destruct (is_some _); [now split |].
  destruct (closed _); [now split |].
  destruct (fs_unsupported host); [now split |].
  destruct (filename (logger w)).
  - split; [exact H |]. cbn. intros r w1 H1.
    destruct r; cbn; split; try exact I; try now apply well_formed_retry.
    framed.
  - split; [now apply well_formed_retry | exact I].
Qed.

Lemma preserves_timer_fire (id : nat) :
  preserves well_formed (timer_fire host id).
Proof.
  intros w H. unfold timer_fire.
  destruct (existsb _ _) eqn:E; [| now split].
  set (w0 := set_timers
               (List.filter (fun t => negb (Nat.eqb (fst t) id)) (timers w)) w).
  change (retry_callback host w0)
    with (spawn (reopen host) (upd (set_timer None) w0)).
  apply preserves_spawn; [apply preserves_reopen |].
  destruct H as (T & L & C & N). unfold timers_ok in T.
  repeat split; cbn; auto. unfold timers_ok. cbn.
  destruct (timer (logger w)); rewrite T in E |- *; cbn in E |- *;
    [| discriminate].
  rewrite orb_false_r in E. now rewrite E.
Qed.

Lemma preserves_getSize : preserves well_formed getSize.
Proof.
  intros w H. unfold getSize. destruct (filename (logger w)); [| now split].
  split; [exact H |]. cbn. intros r w1 H1.
  destruct r; try now split.
  destruct (String.eqb code "ENOENT"); now split.
Qed.

Lemma preserves_open : preserves well_formed (open host).
Proof.
  intros w H. unfold open.
  destruct (negb _); [split; [framed | exact I] |].
  destruct (is_some _); [split; [framed | exact I] |].
  destruct (fs_unsupported host); [split; [framed | exact I] |].
  revert w H. apply preserves_seqM.
  - apply preserves_await_call; [apply preserves_getSize |].
    intros v. apply preserves_ret.
  - intros size. apply preserves_seqM.
    + apply preserves_modify. intros w H. framed.
    + intros _. apply preserves_withW. intros w0.
      destruct (filename (logger w0)); [| apply preserves_throw].
      apply preserves_await. intros r.
      destruct r; try apply preserves_throw.
      apply preserves_modify. intros w H. framed.
Qed.

Lemma preserves_close : preserves well_formed (close host).
Proof.
  intros w H. unfold close.
  set (w1 := match timer (logger w) with
             | Some id => upd (set_timer None) (clearTimeout id w)
             | None => w
             end).
  assert (well_formed w1) as H1.
  { subst w1. destruct (timer (logger w)) as [id|] eqn:E; [| exact H].
    destruct H as (T & L & C & N). unfold timers_ok in T. rewrite E in T.
    repeat split; cbn; auto. unfold timers_ok. cbn. rewrite T. cbn.
    now rewrite Nat.eqb_refl. }
  clearbody w1.
  destruct (fs_unsupported host); [split; [framed | exact I] |].
  destruct (stream (logger w1)); [| split; [framed | exact I]].
  split; [framed |]. cbn. intros r w3 H3.
  destruct r; split; try exact I; framed.
Qed.

Lemma preserves_unlink_all (dir : string) (files : list string) :
  preserves well_formed (unlink_all host dir files).
Proof.
  induction files as [|f files IH]; cbn [unlink_all]; [apply preserves_ret |].
  apply preserves_await. intros r. destruct r; try apply preserves_throw.
  exact IH.
Qed.

Lemma preserves_prune (dir base ext : string) :
  preserves well_formed (prune host dir base ext).
Proof.
  unfold prune. apply preserves_await. intros r.
  destruct r; try apply preserves_throw.
  destruct (RegExp.compile _); try apply preserves_throw.
  apply preserves_withW. intros w0. apply preserves_unlink_all.
Qed.

Lemma preserves_drain (buf : list string) :
  preserves well_formed (drain buf).
Proof.
  induction buf as [|msg rest IH]; intros w H; cbn [drain]; [now split |].
  destruct (stream (logger (upd (set_buffer rest) w))) eqn:E.
  - apply IH. framed.
  - split; [framed | exact I].
Qed.

Lemma preserves_rotate : preserves well_formed (rotate host).
Proof.
  intros w H. unfold rotate.
  destruct (rotating _); [now split |].
  destruct (negb _); [now split |].
  destruct (fs_unsupported host); [now split |].
  revert w H. apply preserves_seqM.
  { apply preserves_modify. intros w H. framed. }
  intros _. apply preserves_seqM.
  { apply preserves_await_call; [apply preserves_close |].
    intros v. apply preserves_ret. }
  intros _. apply preserves_withW. intros w1.
  destruct (filename (logger w1)); [| apply preserves_throw].
  apply preserves_await. intros r.
  destruct r; try apply preserves_throw.
  apply preserves_seqM.
  { apply preserves_await_call; [apply preserves_open |].
    intros v. apply preserves_ret. }
  intros _. apply preserves_seqM.
  { apply preserves_withW. intros w2. apply preserves_drain. }
  intros _. apply preserves_seqM.
  { apply preserves_modify. intros w H. framed. }
  intros _. apply preserves_seqM.
  { apply preserves_spawn, preserves_prune. }
  intros _. apply preserves_ret.
Qed.

Lemma levels_bound (s : string) (lv : nat) :
  levels s = Some lv -> (lv <= 5)%nat.
Proof.
  unfold levels, Levels.NONE, Levels.ERROR, Levels.WARNING, Levels.INFO,
    Levels.DEBUG, Levels.SPAM.
  repeat match goal with
  | |- context [String.eqb s ?x] => destruct (String.eqb s x)
  end; intros [= <-]; lia.
Qed.

Lemma preserves_setLevel (name : string) :
  preserves well_formed (setLevel name).
Proof.
  unfold setLevel. destruct (levels _) as [lv|] eqn:E;
    [| apply preserves_throw].
  apply preserves_modify. intros w (T & L & C & N).
  repeat split; auto. cbn. now apply levels_bound in E.
Qed.

Lemma preserves_setFile (name : string) :
  preserves well_formed (setFile name).
Proof.
  unfold setFile. apply preserves_withW. intros w0.
  apply preserves_seqM; [apply preserves_assert |].
  intros _. apply preserves_modify. intros w H. framed.
Qed.

Ltac option_step :=
  apply preserves_when;
  match goal with
  | |- preserves _ (match ?v with _ => _ end) =>
      destruct v; try apply preserves_throw; try apply preserves_setLevel;
      try (apply preserves_modify; intros w H; framed)
  end.

Lemma preserves_set (opts : options) : preserves well_formed (set host opts).
Proof.
  destruct opts as [s | o]; unfold set.
  - apply preserves_seqM; [apply preserves_assert | intros _].
    apply preserves_seqM; [| intros _; apply preserves_setLevel].
    apply preserves_withW. intros w0. apply preserves_assert.
  - apply preserves_seqM.
    { apply preserves_withW. intros w0. apply preserves_assert. }
    intros _.
    repeat (apply preserves_seqM; [option_step | intros _]).
    option_step.
Qed.

(** Case analysis on the tests of a straight-line method. *)
Lemma preserves_writeConsole (lvl : nat) (m : option string)
  (args : list value) : preserves well_formed (writeConsole host lvl m args).
Proof.
  intros w H. unfold writeConsole.
  branches; split; try exact I; try exact H; framed.
Qed.

Lemma preserves_writeStream (lvl : nat) (m : option string)
  (args : list value) : preserves well_formed (writeStream host lvl m args).
Proof.
  intros w H. unfold writeStream.
  destruct (nth_error prefixByVal lvl); [| now split].
  destruct (_ && _); [now split |].
  destruct (_ && _); [now split |].
  destruct (rotating _); [split; [framed | exact I] |].
  destruct (stream (logger w)); [| now split].
  match goal with
  | |- context [spawn (rotate host) ?w1] =>
      assert (well_formed w1) as H1 by framed;
      destruct (_ <=? _); [| now split];
      now apply preserves_spawn; [apply preserves_rotate |]
  end.
Qed.

Lemma preserves_log (lvl : nat) (m : option string) (args : list value) :
  preserves well_formed (log host lvl m args).
Proof.
  intros w H. unfold log.
  destruct (_ && _); [now split |].
  destruct (_ <? _)%nat; [now split |].
  revert w H. apply preserves_seqM; [apply preserves_writeConsole |].
  intros _. apply preserves_writeStream.
Qed.

Lemma preserves_logError (lvl : nat) (m : option string) (message : string)
  (stack : option string) :
  preserves well_formed (logError host lvl m message stack).
Proof.
  intros w H. unfold logError.
  destruct (_ && _); [now split |].
  apply preserves_log. destruct (_ && _); [framed | exact H].
Qed.

Lemma preserves_leveled (lvl : nat) (m : option string) (args : list value) :
  preserves well_formed (leveled host lvl m args).
Proof.
  intros w H. unfold leveled.
  destruct (_ <? _)%nat; [now split |].
  destruct args as [|[] ?];
    try (now apply preserves_log); now apply preserves_logError.
Qed.

Lemma preserves_ctx_leveled (this : LoggerContext) (lvl : nat)
  (args : list value) :
  preserves well_formed (Ctx.leveled host this lvl args).
Proof.
  intros w H. unfold Ctx.leveled, Ctx.log, Ctx.logError.
  destruct (_ <? _)%nat; [now split |].
  destruct args as [|[] ?];
    try (now apply preserves_log); now apply preserves_logError.
Qed.

Lemma preserves_context (m : string) : preserves well_formed (context m).
Proof.
  intros w H. unfold context.
  destruct (contexts (logger w) !! m) as [id|] eqn:E; [now split |].
  split; [| exact I]. destruct H as (T & L & C & N).
  cbn. repeat split; cbn; auto.
  - intros m' id. destruct (decide (m = m')) as [<- | Hne].
    + rewrite lookup_insert_eq. intros [= <-]. apply lookup_insert_eq.
    + rewrite lookup_insert_ne by exact Hne. intros Hc.
      pose proof (N _ _ (C _ _ Hc)) as Hlt.
      rewrite lookup_insert_ne by lia. now apply C.
  - intros id c. destruct (decide (next_id w = id)) as [<- | Hne].
    + lia.
    + rewrite lookup_insert_ne by exact Hne. intros Hc. apply N in Hc. lia.
Qed.

Lemma preserves_ctx_context (m : string) :
  preserves well_formed (Ctx.context m).
Proof.
  intros w (T & L & C & N). unfold Ctx.context. split; [| exact I].
  cbn. repeat split; cbn; auto.
  - intros m' id Hc. pose proof (N _ _ (C _ _ Hc)) as Hlt.
    rewrite lookup_insert_ne by lia. now apply C.
  - intros id c. destruct (decide (next_id w = id)) as [<- | Hne].
    + lia.
    + rewrite lookup_insert_ne by exact Hne. intros Hc. apply N in Hc. lia.
Qed.

End WellFormed.

(** X1.  A logger is well formed when it is built and after every step of
    every method, whatever happens while a method is suspended: at most
    one retry timer is outstanding and it is the one the logger
    remembers, the level is one of the six, and every cached context is a
    live object that carries the module name it is cached under. *)
Theorem logger_stays_well_formed (host : Host) :
  (forall now, well_formed (initial_world host now)) /\
  (forall opts now, well_formed (fst (new_Logger host opts now))) /\
  preserves well_formed (open host) /\
  preserves well_formed (close host) /\
  preserves well_formed (rotate host) /\
  (forall dir base ext, preserves well_formed (prune host dir base ext)) /\
  preserves well_formed (reopen host) /\
  (forall id, preserves well_formed (timer_fire host id)) /\
  (forall opts, preserves well_formed (set host opts)) /\
  (forall name, preserves well_formed (setLevel name)) /\
  (forall name, preserves well_formed (setFile name)) /\
  (forall lvl m args, preserves well_formed (log host lvl m args)) /\
  (forall lvl m message stack,
     preserves well_formed (logError host lvl m message stack)) /\
  (forall lvl m args, preserves well_formed (leveled host lvl m args)) /\
  (forall this lvl args,
     preserves well_formed (Ctx.leveled host this lvl args)) /\
  (forall m, preserves well_formed (context m)) /\
  (forall m, preserves well_formed (Ctx.context m)) /\
  (forall w h, well_formed w -> well_formed (stream_error h w)) /\
  (forall w, well_formed w -> well_formed (handleError w)) /\
  (forall w, well_formed w -> well_formed (retry w)) /\
  (forall w, well_formed w ->
             (List.length (timers w) <= 1)%nat /\
             Forall (fun t => snd t = 10000) (timers w)).
Proof.
  repeat apply conj.
  - apply well_formed_initial.
  - intros opts now. unfold new_Logger.
    destruct opts as [[[|c s] | o] |];
      try apply well_formed_initial;
      apply preserves_set, well_formed_initial.
  - apply preserves_open.
  - apply preserves_close.
  - apply preserves_rotate.
  - apply preserves_prune.
  - apply preserves_reopen.
  - apply preserves_timer_fire.
  - apply preserves_set.
  - apply preserves_setLevel.
  - apply preserves_setFile.
  - apply preserves_log.
  - apply preserves_logError.
  - apply preserves_leveled.
  - apply preserves_ctx_leveled.
  - apply preserves_context.
  - apply preserves_ctx_context.
  - intros w h. apply well_formed_stream_error.
  - apply well_formed_handleError.
  - apply well_formed_retry.
  - intros w (T & _). unfold timers_ok in T. rewrite T.
    destruct (timer (logger w)); cbn; split; try lia; repeat constructor.
Qed.

Lemma logger_stays_well_formed_witness :
  well_formed (fst (rotate Sample.host Sample.open_world)) /\
  well_formed (stream_error 1 Sample.open_world) /\
  (List.length (timers (stream_error 1 Sample.open_world)) <= 1)%nat.
Proof.
  pose proof (logger_stays_well_formed Sample.host) as H.
  assert (well_formed Sample.open_world) as W.
  { split; [reflexivity | split; [cbv; lia | split]].
    - intros m id E. cbn in E. now rewrite lookup_empty in E.
    - intros id c E. cbn in E. now rewrite lookup_empty in E. }
  destruct H as (_ & _ & _ & _ & HR & _ & _ & _ & _ & _ & _ & _ & _ & _ & _
                 & _ & _ & HS & _ & _ & HT).
  split; [exact (proj1 (HR Sample.open_world W)) | split].
  - exact (HS Sample.open_world 1%nat W).
  - exact (proj1 (HT _ (HS Sample.open_world 1%nat W))).
Defined.

(* ===================================================================== *)
(** * Contexts of distinct modules *)
(* ===================================================================== *)

(** X2.  On a well-formed logger, [context] returns for two different
    module names two different objects, each carrying the name it was
    asked for, and both stay cached: asking again returns the same
    objects and changes nothing. *)
Theorem contexts_are_labelled_and_distinct (w : World) (m1 m2 : string) :
  well_formed w ->
  m1 <> m2 ->
  exists id1 id2 w1 w2,
    context m1 w = (w1, Done (VObject id1)) /\
    context m2 w1 = (w2, Done (VObject id2)) /\
    id1 <> id2 /\
    heap w2 !! id1 = Some (mkLoggerContext m1) /\
    heap w2 !! id2 = Some (mkLoggerContext m2) /\
    context m1 w2 = (w2, Done (VObject id1)) /\
    context m2 w2 = (w2, Done (VObject id2)).
Proof.
  intros W Hne.
  assert (forall w m, well_formed w ->
            exists id w', context m w = (w', Done (VObject id))
                          /\ well_formed w'
                          /\ contexts (logger w') !! m = Some id
                          /\ (forall m' id', contexts (logger w) !! m' = Some id'
                                -> contexts (logger w') !! m' = Some id')) as Step.
  { intros w0 m W0. pose proof (preserves_context m w0 W0) as [W1 _].
    unfold context in *.
    destruct (contexts (logger w0) !! m) as [id|] eqn:E; cbn in W1.
    - exists id, w0.
      split; [reflexivity | split; [exact W0 | split; [exact E | auto]]].
    - eexists _, _. split; [reflexivity |]. split; [exact W1 |].
      cbn. split; [apply lookup_insert_eq |].
      intros m' id' E'. rewrite lookup_insert_ne; [exact E' | congruence]. }
  destruct (Step w m1 W) as (id1 & w1 & E1 & W1 & C1 & _).
  destruct (Step w1 m2 W1) as (id2 & w2 & E2 & W2 & C2 & K2).
  pose proof (K2 _ _ C1) as C1'.
  destruct W2 as (_ & _ & CH & _).
  pose proof (CH _ _ C1') as L1. pose proof (CH _ _ C2) as L2.
  exists id1, id2, w1, w2. repeat split; auto.
  - intros ->. rewrite L1 in L2. congruence.
  - unfold context. now rewrite C1'.
  - unfold context. now rewrite C2.
Qed.

Lemma contexts_are_labelled_and_distinct_witness :
  exists id1 id2 w1 w2,
    context "net" (initial_world Sample.host Sample.now)
    = (w1, Done (VObject id1)) /\
    context "chain" w1 = (w2, Done (VObject id2)) /\
    id1 <> id2.
Proof.
  destruct (contexts_are_labelled_and_distinct
              (initial_world Sample.host Sample.now) "net" "chain"
              (well_formed_initial Sample.host Sample.now)
              ltac:(discriminate))
    as (id1 & id2 & w1 & w2 & E1 & E2 & N & _).
  now exists id1, id2, w1, w2.
Defined.

(* ===================================================================== *)
(** * The write path, continued *)
(* ===================================================================== *)

Section Logging.

Variable host : Host.

Lemma writeConsole_spec (lvl : nat) (m : option string) (args : list value)
  (w : World) :
  (lvl < 6)%nat ->
  exists v w' es,
    writeConsole host lvl m args w = (w', Done v) /\
    adds_effects w w' es /\
    (List.length es <= 1)%nat /\
    forallb is_console es = true.
Proof.
  intros Hl. unfold writeConsole.
  assert (exists name, nth_error levelsByVal lvl = Some name) as [name ->].
  { destruct lvl as [|[|[|[|[|[|n]]]]]]; cbn; eauto. lia. }
  assert (exists color, nth_error styles lvl = Some color) as [color ->].
  { destruct lvl as [|[|[|[|[|[|n]]]]]]; cbn; eauto. lia. }
  assert (forall e, is_console e = true ->
            exists es, adds_effects w (emit e w) es
                       /\ (List.length es <= 1)%nat
                       /\ forallb is_console es = true) as Emit.
  { intros e He. exists [e]. repeat split; cbn; auto. now rewrite He. }
  assert (exists es, adds_effects w w es
                     /\ (List.length es <= 1)%nat
                     /\ forallb is_console es = true) as Same.
  { exists []. repeat split; cbn; auto. now rewrite app_nil_r. }
  branches.
  all: first
    [ match goal with
      | |- context [emit ?e _] =>
          destruct (Emit e eq_refl) as (es & He);
          eexists _, _, es; split; [reflexivity | exact He]
      end
    | destruct Same as (es & He);
      eexists _, _, es; split; [reflexivity | exact He] ].
Qed.

Lemma writeStream_returns (lvl : nat) (m : option string)
  (args : list value) (w : World) :
  (lvl < 6)%nat ->
  exists v, main (snd (writeStream host lvl m args w)) = Done v.
Proof.
  intros Hl. unfold writeStream.
  assert (exists name, nth_error prefixByVal lvl = Some name) as [name ->].
  { destruct lvl as [|[|[|[|[|[|n]]]]]]; cbn; eauto. lia. }
  destruct (stream (logger w)), (rotating (logger w)),
    (closing (logger w)); cbn -[rotate stream_line]; eauto.
  all: destruct (_ <=? _); cbn -[rotate stream_line]; eauto.
  all: destruct (rotate host _); cbn; eauto.
Qed.

Lemma log_returns (lvl : nat) (m : option string) (args : list value)
  (w : World) :
  (level (logger w) <= 5)%nat ->
  exists v, main (snd (log host lvl m args w)) = Done v.
Proof.
  intros Hl. unfold log.
  destruct (_ && _); [cbn; eauto |].
  destruct (Nat.ltb_spec (level (logger w)) lvl) as [Hlt | Hge];
    [cbn; eauto |].
  assert (lvl < 6)%nat as Hv by lia.
  destruct (writeConsole_spec lvl m args w Hv) as (v & w' & es & E & _).
  cbn. rewrite E. cbn. apply writeStream_returns, Hv.
Qed.



(** X4.  [writeConsole] writes nothing and returns [false] when the
    console is off; with a [process.stdout] it writes one line, to
    [stderr] for the level [error] and to [stdout] for every other level,
    made of a prefix, the module tag, the formatted arguments and a line
    feed; it never touches the logger; and a level that is not one of the
    six throws before anything is written. *)
Theorem writeConsole_routes_by_level (lvl : nat) (m : option string)
  (args : list value) (w : World) :
  ((6 <= lvl)%nat ->
   writeConsole host lvl m args w
   = (w, Fail (AssertionError "Invalid log level."))) /\
  ((lvl < 6)%nat ->
   (console (logger w) = false ->
    writeConsole host lvl m args w = (w, Done (VBool false))) /\
   (console (logger w) = true -> process_stdout host = true ->
    exists pre,
      let line :=
        pre ++ module_tag m ++ format host args (colors (logger w)) ++ nl in
      writeConsole host lvl m args w
      = (emit (if Nat.eqb lvl Levels.ERROR then EStderr line
               else EStdout line) w, Done (VBool true))) /\
   (exists v w' es,
      writeConsole host lvl m args w = (w', Done v) /\
      adds_effects w w' es /\
      (List.length es <= 1)%nat /\
      forallb is_console es = true)).
Proof.
  split.
  - intros Hl. unfold writeConsole.
    replace (nth_error levelsByVal lvl) with (@None string); [reflexivity |].
    symmetry. apply nth_error_None. cbn. lia.
  - intros Hl. split; [| split; [| now apply writeConsole_spec]].
    + intros Hc. unfold writeConsole. rewrite Hc.
      destruct lvl as [|[|[|[|[|[|n]]]]]]; try reflexivity. lia.
    + intros Hc Hp. unfold writeConsole. rewrite Hc, Hp.
      assert (exists name, nth_error levelsByVal lvl = Some name)
        as [name ->].
      { destruct lvl as [|[|[|[|[|[|n]]]]]]; cbn; eauto. lia. }
      assert (exists color, nth_error styles lvl = Some color)
        as [color ->].
      { destruct lvl as [|[|[|[|[|[|n]]]]]]; cbn; eauto. lia. }
      destruct (colors (logger w)); cbn [negb];
        eexists; reflexivity.
Qed.

End Logging.


Lemma writeConsole_routes_by_level_witness :
  let w := upd (set_console true) Sample.open_world in
  writeConsole Sample.host 6 None [] w
  = (w, Fail (AssertionError "Invalid log level.")) /\
  writeConsole Sample.host Levels.ERROR None [VStr "boom"] Sample.open_world
  = (Sample.open_world, Done (VBool false)) /\
  exists pre,
    writeConsole Sample.host Levels.ERROR None [VStr "boom"] w
    = (emit (EStderr (pre ++ "boom" ++ nl)) w, Done (VBool true)).
Proof.
  cbv zeta.
  pose proof (writeConsole_routes_by_level Sample.host 6 None []
                (upd (set_console true) Sample.open_world)) as [T _].
  pose proof (writeConsole_routes_by_level Sample.host Levels.ERROR None
                [VStr "boom"] Sample.open_world) as [_ Q].
  pose proof (writeConsole_routes_by_level Sample.host Levels.ERROR None
                [VStr "boom"] (upd (set_console true) Sample.open_world))
    as [_ R].
  split; [apply T; lia | split].
  - apply Q; [cbv; lia | reflexivity].
  - destruct R as (_ & R & _); [cbv; lia |].
    destruct (R eq_refl eq_refl) as [pre E]. exists pre. exact E.
Defined.

(* ===================================================================== *)
(** * Writes while the stream is away *)
(* ===================================================================== *)

Section Suspended.

Variable host : Host.

Lemma prefix_of_level (lvl : nat) :
  (lvl < 6)%nat -> nth_error prefixByVal lvl = Some (nth lvl prefixByVal "").
Proof.
  intros H. destruct lvl as [|[|[|[|[|[|n]]]]]]; try reflexivity. lia.
Qed.

Lemma writeStream_buffers (w : World) (lvl : nat) (m : option string)
  (args : list value) :
  rotating (logger w) = true ->
  (lvl < 6)%nat ->
  writeStream host lvl m args w
  = (upd (set_buffer
            (_buffer (logger w)
             ++ [stream_line host (clock w) (nth lvl prefixByVal "") m args]))
       w, Done VUndefined).
Proof.
  intros Hr Hl. unfold writeStream.
  rewrite (prefix_of_level lvl Hl), Hr.
  rewrite !andb_false_r. reflexivity.
Qed.

(** X5.  While a rotation is in progress [log] accepts the call even
    though the logger is marked closed: the console may get its line, and
    the file line, stamped with the clock of the call, is appended to the
    buffer; the stream and the byte count are left alone. *)
Theorem log_during_rotation_is_buffered (w : World) (lvl : nat)
  (m : option string) (args : list value) :
  rotating (logger w) = true ->
  (lvl <= level (logger w))%nat ->
  (lvl < 6)%nat ->
  exists w' v es,
    log host lvl m args w = (w', Done v) /\
    _buffer (logger w')
    = (_buffer (logger w)
       ++ [stream_line host (clock w) (nth lvl prefixByVal "") m args])%list /\
    effects w' = (effects w ++ es)%list /\
    forallb is_console es = true /\
    stream (logger w') = stream (logger w) /\
    _fileSize (logger w') = _fileSize (logger w) /\
    closed (logger w') = closed (logger w).
Proof.
  intros Hr Hle Hl. unfold log. rewrite Hr, andb_false_r.
  replace (level (logger w) <? lvl)%nat with false
    by (symmetry; apply Nat.ltb_ge; exact Hle).
  destruct (writeConsole_spec host lvl m args w Hl)
    as (v & w1 & es & E & (Lg & Ck & Ef & _) & _ & Hc).
  cbn [seqM]. rewrite E. cbn [bind].
  rewrite writeStream_buffers by (rewrite ?Lg; assumption).
  eexists _, _, es. split; [reflexivity |].
  cbn. rewrite Lg, Ck, Ef. repeat split; assumption.
Qed.

(** X6.  A [close] that has a stream to close raises [closing] and waits
    for the stream; until it is resumed every [writeStream] is dropped:
    nothing is written, counted or buffered. *)
Theorem writes_during_close_are_dropped (w : World) (h : nat) :
  fs_unsupported host = false ->
  stream (logger w) = Some h ->
  rotating (logger w) = false ->
  closing (logger (fst (close host w))) = true /\
  (exists k, snd (close host w) = Await (OpCloseStream h) k) /\
  forall w1 lvl m args,
    logger w1 = logger (fst (close host w)) ->
    (lvl < 6)%nat ->
    writeStream host lvl m args w1 = (w1, Done VUndefined).
Proof.
  intros Hf Hs Hr.
  assert (closing (logger (fst (close host w))) = true
          /\ rotating (logger (fst (close host w))) = false
          /\ exists k, snd (close host w) = Await (OpCloseStream h) k)
    as (Hc & Hr' & Hk).
  { unfold close. rewrite Hf.
    destruct (timer (logger w)); cbn; rewrite Hs; cbn; eauto. }
  split; [exact Hc | split; [exact Hk |]].
  intros w1 lvl m args E Hl. unfold writeStream.
  rewrite (prefix_of_level lvl Hl), E, Hc, Hr'.
  destruct (negb (is_some _)); reflexivity.
Qed.

End Suspended.

Lemma log_during_rotation_is_buffered_witness :
  let w :=
    upd (set_closed true) (upd (set_rotating true) Sample.open_world) in
  closed (logger w) = true /\
  exists w' v es,
    log Sample.host Levels.INFO (Some "net") [VStr "kept"] w = (w', Done v) /\
    _buffer (logger w') = ["[I:2019-10-28T19:02:45Z] (net) kept" ++ nl] /\
    effects w' = (effects w ++ es)%list.
Proof.
  cbv zeta. split; [reflexivity |].
  destruct (log_during_rotation_is_buffered Sample.host
              (upd (set_closed true)
                 (upd (set_rotating true) Sample.open_world))
              Levels.INFO (Some "net") [VStr "kept"])
    as (w' & v & es & E & B & F & _);
    [reflexivity | cbv; lia | cbv; lia |].
  exists w', v, es. split; [exact E | split; [exact B | exact F]].
Defined.

Lemma writes_during_close_are_dropped_witness :
  let w1 := fst (close Sample.host Sample.open_world) in
  closing (logger w1) = true /\
  writeStream Sample.host Levels.INFO None [VStr "lost"] w1
  = (w1, Done VUndefined).
Proof.
  cbv zeta.
  destruct (writes_during_close_are_dropped Sample.host Sample.open_world 1
              eq_refl eq_refl eq_refl) as (C & _ & D).
  split; [exact C |].
  apply D; [reflexivity | cbv; lia].
Defined.

(* ===================================================================== *)
(** * Levels *)
(* ===================================================================== *)

Section LevelNames.

Variable host : Host.



Lemma close_first (w : World) :
  (exists es, effects (fst (close host w)) = (effects w ++ es)%list) /\
  ((exists v, snd (close host w) = Done v)
   \/ (exists op k, snd (close host w) = Await op k)).
Proof.
  unfold close.
  destruct (timer (logger w)), (fs_unsupported host); cbn;
    try destruct (stream (logger w)); cbn; split; eauto;
    first [ exists []; now rewrite app_nil_r | eexists; reflexivity ].
Qed.

Lemma rotate_first_effects (w : World) :
  exists es, effects (fst (rotate host w)) = (effects w ++ es)%list.
Proof.
  unfold rotate.
  destruct (rotating (logger w)); [exists []; now rewrite app_nil_r |].
  destruct (negb _); [exists []; now rewrite app_nil_r |].
  destruct (fs_unsupported host); [exists []; now rewrite app_nil_r |].
  cbn [seqM modify bind await_call].
  destruct (close_first (upd (set_rotating true) w)) as [[es E] S].
  destruct (close host (upd (set_rotating true) w)) as [w1 t].
  cbn in E, S. exists es. rewrite <- E.
  destruct S as [[v ->] | (op & k & ->)]; reflexivity.
Qed.

Lemma writeStream_effects (lvl : nat) (m : option string)
  (args : list value) (w : World) :
  exists es,
    effects (fst (writeStream host lvl m args w)) = (effects w ++ es)%list.
Proof.
  unfold writeStream.
  destruct (nth_error prefixByVal lvl);
    [| exists []; now rewrite app_nil_r].
  destruct (_ && _); [exists []; now rewrite app_nil_r |].
  destruct (_ && _); [exists []; now rewrite app_nil_r |].
  destruct (rotating (logger w)); [exists []; cbn; now rewrite app_nil_r |].
  destruct (stream (logger w)) as [h |];
    [| exists []; now rewrite app_nil_r].
  cbv zeta. destruct (_ <=? _).
  - match goal with
    | |- context [spawn _ ?w1] =>
        destruct (rotate_first_effects w1) as [es E];
        unfold spawn; destruct (rotate host w1) as [w2 t]
    end.
    cbn in E |- *. rewrite E, <- app_assoc. eauto.
  - cbn. eauto.
Qed.

Lemma log_prints (lvl : nat) (m : option string) (args : list value)
  (w : World) :
  closed (logger w) = false ->
  console (logger w) = true ->
  (lvl <= level (logger w))%nat ->
  (lvl < 6)%nat ->
  exists e es,
    effects (fst (log host lvl m args w)) = (effects w ++ e :: es)%list
    /\ is_console e = true.
Proof.
  intros Hc Hcon Hle Hl. unfold log. rewrite Hc. cbn [andb].
  replace (level (logger w) <? lvl)%nat with false
    by (symmetry; apply Nat.ltb_ge; exact Hle).
  assert (exists e v, writeConsole host lvl m args w = (emit e w, Done v)
                      /\ is_console e = true) as (e & v & E & He).
  { unfold writeConsole. rewrite Hcon.
    destruct lvl as [|[|[|[|[|[|n]]]]]]; try lia; cbn [nth_error levelsByVal
      styles negb Nat.eqb Levels.ERROR];
      branches; eauto. }
  cbn [seqM]. rewrite E. cbn [bind].
  destruct (writeStream_effects lvl m args (emit e w)) as [es Es].
  exists e, es. split; [| exact He].
  rewrite Es. cbn. now rewrite <- app_assoc.
Qed.

(** X8.  The level is a threshold.  After [setLevel] with the name at
    position [i] of [levelsByVal], a leveled method of a level above [i]
    returns at once with nothing changed, and one of a level up to [i],
    on an open logger with the console on, prints. *)
Theorem level_is_a_threshold (w : World) (i j : nat) (name : string)
  (m : option string) (args : list value) :
  nth_error levelsByVal i = Some name ->
  (j < 6)%nat ->
  closed (logger w) = false ->
  console (logger w) = true ->
  exists w1,
    setLevel name w = (w1, Done VUndefined) /\
    level (logger w1) = i /\
    ((i < j)%nat -> leveled host j m args w1 = (w1, Done VUndefined)) /\
    ((j <= i)%nat ->
     exists e es,
       effects (fst (leveled host j m args w1)) = (effects w ++ e :: es)%list
       /\ is_console e = true).
Proof.
  intros Hn Hj Hc Hcon.
  exists (upd (set_level i) w).
  assert (setLevel name w = (upd (set_level i) w, Done VUndefined)) as ->.
  { unfold setLevel.
    destruct i as [|[|[|[|[|[|n]]]]]]; cbn in Hn;
      try (injection Hn as <-; reflexivity).
    now destruct n. }
  split; [reflexivity | split; [reflexivity | split]].
  - intros Hlt. unfold leveled. cbn [upd logger level set_level].
    now apply Nat.ltb_lt in Hlt as ->.
  - intros Hle. set (w1 := upd (set_level i) w).
    assert (closed (logger w1) = false) as Hc1 by exact Hc.
    assert (level (logger w1) = i) as Hlv by reflexivity.
    unfold leveled. rewrite Hlv.
    replace (i <? j)%nat with false by (symmetry; now apply Nat.ltb_ge).
    assert (forall a,
              exists e es,
                effects (fst (log host j m a w1)) = (effects w ++ e :: es)%list
                /\ is_console e = true) as L.
    { intros a. apply (log_prints j m a w1); auto. }
    destruct args as [| [] rest]; try apply L.
    unfold logError. rewrite Hc1. cbn [andb]. cbv zeta.
    set (a := [VStr _]).
    destruct (fs_unsupported host && console (logger w1)
              && (j <=? Levels.WARNING)%nat).
    + destruct (log_prints j m a
                  (emit (EConsoleError [VError message stack]) w1))
        as (e & es & E & He); [exact Hc | exact Hcon | exact Hle | exact Hj |].
      exists (EConsoleError [VError message stack]), (e :: es).
      split; [| reflexivity].
      rewrite E. cbn. now rewrite <- app_assoc.
    + apply L.
Qed.

End LevelNames.


Lemma level_is_a_threshold_witness :
  let w := upd (set_console true) Sample.open_world in
  exists w1,
    setLevel "info" w = (w1, Done VUndefined) /\
    debug Sample.host [VStr "quiet"] w1 = (w1, Done VUndefined) /\
    exists e es,
      effects (fst (warning Sample.host [VStr "loud"] w1))
      = (effects w ++ e :: es)%list.
Proof.
  cbv zeta.
  destruct (level_is_a_threshold Sample.host
              (upd (set_console true) Sample.open_world)
              Levels.INFO Levels.DEBUG "info" None [VStr "quiet"]
              eq_refl ltac:(cbv; lia) eq_refl eq_refl)
    as (w1 & E & L & Q & _).
  exists w1. split; [exact E | split].
  - apply Q. cbv; lia.
  - destruct (level_is_a_threshold Sample.host
                (upd (set_console true) Sample.open_world)
                Levels.INFO Levels.WARNING "info" None [VStr "loud"]
                eq_refl ltac:(cbv; lia) eq_refl eq_refl)
      as (w2 & E2 & _ & _ & P).
    assert (w2 = w1) as -> by congruence.
    destruct P as (e & es & P & _); [cbv; lia |].
    exists e, es. exact P.
Defined.

(* ===================================================================== *)
(** * The text of a line *)
(* ===================================================================== *)

Section LineText.

Variable host : Host.

Lemma substring_all (s : string) : substring 0 (String.length s) s = s.
Proof. induction s as [|c s IH]; cbn; [reflexivity | now rewrite IH]. Qed.

(** [slice(0, -5)] drops the last five code units. *)
Lemma slice_drop_five (s t : string) :
  String.length t = 5%nat -> JsString.slice (s ++ t) 0 (-5) = s.
Proof.
  intros Ht. unfold JsString.slice, JsString.rel_index.
  rewrite length_append, Ht.
  replace (0 <? 0) with false by reflexivity.
  replace (-5 <? 0) with true by reflexivity.
  rewrite Z.min_l by lia.
  rewrite Z.max_l by lia.
  rewrite Z.max_l by lia.
  replace (Z.to_nat 0) with 0%nat by reflexivity.
  replace (Z.to_nat (Z.of_nat (String.length s + 5) + -5 - 0))
    with (String.length s) by lia.
  apply substring_prefix.
Qed.

Lemma toJSON_seconds (d : Date) :
  toJSON d = seconds_stamp d ++ ("." ++ pad 3 (millis d) ++ "Z").
Proof.
  unfold toJSON, seconds_stamp. now rewrite !append_assoc.
Qed.

Lemma iso_year_length (y : Z) :
  0 <= y <= 9999 -> String.length (iso_year y) = 4%nat.
Proof.
  intros H. unfold iso_year.
  replace ((0 <=? y) && (y <=? 9999)) with true
    by (symmetry; apply andb_true_iff; split; apply Z.leb_le; lia).
  apply pad_length.
Qed.

(** X9.  The line written to the file is the level letter, the instant of
    the call to the second (the milliseconds of [toISOString] are cut and
    the [Z] put back), the module tag and the arguments formatted without
    colors, ended by a line feed; in the years 0 to 9999 the instant takes
    19 characters. *)
Theorem file_line_is_stamped_to_the_second (now : Date) (name : string)
  (m : option string) (args : list value) :
  stream_line host now name m args
  = "[" ++ name ++ ":" ++ seconds_stamp now ++ "Z] " ++ module_tag m
    ++ format host args false ++ nl /\
  (0 <= year now <= 9999 -> String.length (seconds_stamp now) = 19%nat) /\
  (forall now',
     year now' = year now -> month now' = month now -> day now' = day now ->
     hours now' = hours now -> minutes now' = minutes now ->
     seconds now' = seconds now ->
     stream_line host now' name m args = stream_line host now name m args).
Proof.
  assert (forall d, JsString.slice (toISOString d) 0 (-5) = seconds_stamp d)
    as S.
  { intros d. unfold toISOString. rewrite toJSON_seconds.
    apply slice_drop_five.
    rewrite !length_append, pad_length. reflexivity. }
  repeat apply conj.
  - unfold stream_line. rewrite S. now rewrite !append_assoc.
  - intros Hy. unfold seconds_stamp.
    rewrite !length_append, !pad_length, iso_year_length by exact Hy.
    reflexivity.
  - intros now' Hy Hmo Hd Hh Hmi Hs. unfold stream_line. rewrite !S.
    unfold seconds_stamp. now rewrite Hy, Hmo, Hd, Hh, Hmi, Hs.
Qed.

Lemma Date_compare_eq (a b : Date) : Date_compare a b = Eq -> a = b.
Proof.
  destruct a, b. unfold Date_compare. cbn.
  repeat match goal with
         | |- context [?x ?= ?y] => destruct (Z.compare_spec x y)
         end; cbn; try discriminate.
  intros _. now subst.
Qed.

(** X10.  In the years 0 to 9999 the archive name determines the instant
    of the rotation to the millisecond: two rotations give the same
    archive name exactly when they read the same clock. *)
Theorem archive_names_collide_only_at_equal_instants (base ext : string)
  (d1 d2 : Date) :
  valid_date d1 -> valid_date d2 ->
  0 <= year d1 <= 9999 -> 0 <= year d2 <= 9999 ->
  (archive_name base ext d1 = archive_name base ext d2 <-> d1 = d2) /\
  (forall f,
     d1 = d2 -> rename_target host f d1 = rename_target host f d2).
Proof.
  intros V1 V2 Y1 Y2. split; [split |].
  - intros E. apply Date_compare_eq.
    rewrite <- (archive_name_compare base ext d1 d2 V1 V2 Y1 Y2), E.
    apply compare_refl.
  - now intros ->.
  - now intros f ->.
Qed.

Lemma strip_error_prefixed (s : string) :
  strip_error ("Error: " ++ s) = drop_spaces s.
Proof.
  unfold strip_error.
  change (drop_spaces ("Error: " ++ s)) with ("Error: " ++ s).
  cbn -[drop_spaces]. now rewrite substring_all.
Qed.

(** X11.  [logError] logs one string through [log].  Above the level
    [warning] the stack is not used and the text is the message with
    ["Error: "] in front, whether the message had that prefix or not; at
    the level [error] the text is the message without the prefix,
    followed by the stack without its first line. *)
Theorem logError_text (lvl : nat) (m : option string) (message : string)
  (stack : option string) (w : World) :
  closed (logger w) = false ->
  ((Levels.WARNING < lvl)%nat ->
   logError host lvl m message stack w
   = log host lvl m [VStr ("Error: " ++ strip_error message)] w) /\
  (forall st,
     lvl = Levels.ERROR -> fs_unsupported host = false ->
     stack = Some st -> st <> "" ->
     logError host lvl m message stack w
     = log host lvl m
         [VStr (strip_error message ++ nl ++ after_first_line st)] w) /\
  (forall s, strip_error ("Error: " ++ s) = drop_spaces s) /\
  (forall s,
     JsString.starts_with "Error:" (drop_spaces s) = false ->
     strip_error s = s).
Proof.
  intros Hc. repeat apply conj.
  - intros Hl. unfold logError. rewrite Hc. cbn [andb].
    replace (lvl <=? Levels.WARNING)%nat with false
      by (symmetry; apply Nat.leb_gt; exact Hl).
    rewrite andb_false_r. cbn [andb].
    replace (Nat.eqb lvl Levels.ERROR) with false; [reflexivity |].
    symmetry. apply Nat.eqb_neq. unfold Levels.WARNING, Levels.ERROR in *.
    lia.
  - intros st -> Hf -> Hst. unfold logError. rewrite Hc, Hf. cbn [andb].
    cbn [Nat.eqb Levels.ERROR Levels.WARNING Nat.leb].
    unfold truthy.
    replace (String.eqb st "") with false
      by (symmetry; now apply String.eqb_neq).
    reflexivity.
  - apply strip_error_prefixed.
  - intros s H. unfold strip_error. now rewrite H.
Qed.

End LineText.

Lemma file_line_is_stamped_to_the_second_witness :
  stream_line Sample.host Sample.now "D" (Some "net") [VStr "ready"]
  = "[D:2019-10-28T19:02:45Z] (net) ready" ++ nl /\
  String.length (seconds_stamp Sample.now) = 19%nat.
Proof.
  destruct (file_line_is_stamped_to_the_second Sample.host Sample.now "D"
              (Some "net") [VStr "ready"]) as (E & L & _).
  split; [rewrite E; reflexivity | apply L; cbv; intuition discriminate].
Defined.

Lemma archive_names_collide_only_at_equal_instants_witness :
  let d1 := mkDate 2019 10 28 19 2 45 122 in
  let d2 := mkDate 2019 10 28 19 2 45 123 in
  archive_name "debug" ".log" d1 = "debug_2019-10-28_19-02-45-122.log" /\
  archive_name "debug" ".log" d2 = "debug_2019-10-28_19-02-45-123.log" /\
  (archive_name "debug" ".log" d1 = archive_name "debug" ".log" d2
   <-> d1 = d2).
Proof.
  cbv zeta.
  assert (forall y mo d h mi s ms,
            0 <= y <= 9999 -> 1 <= mo <= 12 -> 1 <= d <= 31 ->
            0 <= h <= 23 -> 0 <= mi <= 59 -> 0 <= s <= 59 ->
            0 <= ms <= 999 ->
            valid_date (mkDate y mo d h mi s ms)) as V.
  { intros. unfold valid_date. cbn. lia. }
  split; [reflexivity | split; [reflexivity |]].
  apply (archive_names_collide_only_at_equal_instants Sample.host
           "debug" ".log" (mkDate 2019 10 28 19 2 45 122)
           (mkDate 2019 10 28 19 2 45 123));
    [apply V; lia | apply V; lia | cbn; lia | cbn; lia].
Defined.

Lemma logError_text_witness :
  logError Sample.host Levels.INFO None "Error: boom" (Some "trace")
    Sample.open_world
  = log Sample.host Levels.INFO None [VStr "Error: boom"] Sample.open_world.
Proof.
  destruct (logError_text Sample.host Levels.INFO None "Error: boom"
              (Some "trace") Sample.open_world eq_refl) as (A & _).
  rewrite A; [reflexivity | cbv; lia].
Defined.

(* ===================================================================== *)
(** * Memory usage *)
(* ===================================================================== *)

Section MemoryFacts.

Variable host : Host.

Lemma mb_bounds (n : Z) : mb n * 2 ^ 20 <= n < (mb n + 1) * 2 ^ 20.
Proof.
  unfold mb. change (Z.shiftl 1 20) with (2 ^ 20).
  pose proof (Z.div_mod n (2 ^ 20) ltac:(lia)).
  pose proof (Z.mod_pos_bound n (2 ^ 20) ltac:(lia)). lia.
Qed.

Lemma mb_unique (n q : Z) : q * 2 ^ 20 <= n < (q + 1) * 2 ^ 20 -> mb n = q.
Proof.
  intros H. pose proof (mb_bounds n). nia.
Qed.

(** X12.  [memoryUsage] reports whole megabytes rounded down, and zeros
    on a host without [process.memoryUsage]; the native heap it reports
    is the difference of the reported totals or one less; and [memory]
    is a [log] at the level [debug], silent below it and never
    throwing. *)
Theorem memoryUsage_rounds_down (u : MemoryUsage) :
  memoryUsage None = mkMemoryReport 0 0 0 0 0 /\
  (let r := memoryUsage (Some u) in
   total r * 2 ^ 20 <= rss u < (total r + 1) * 2 ^ 20 /\
   jsHeap r * 2 ^ 20 <= heapUsed u < (jsHeap r + 1) * 2 ^ 20 /\
   jsHeapTotal r * 2 ^ 20 <= heapTotal u < (jsHeapTotal r + 1) * 2 ^ 20 /\
   total r - jsHeapTotal r - 1 <= nativeHeap r <= total r - jsHeapTotal r /\
   (nativeHeap r = total r - jsHeapTotal r
    <-> heapTotal u mod 2 ^ 20 <= rss u mod 2 ^ 20)) /\
  (forall pm m this w,
     (level (logger w) < Levels.DEBUG)%nat ->
     memory host pm m w = (w, Done VUndefined) /\
     Ctx_memory host this pm w = (w, Done VUndefined)) /\
  (forall pm m w,
     (level (logger w) <= 5)%nat ->
     exists v, main (snd (memory host pm m w)) = Done v).
Proof.
  split; [reflexivity | split; [| split]].
  - cbv zeta. cbn [memoryUsage total jsHeap jsHeapTotal nativeHeap].
    pose proof (mb_bounds (rss u)) as A.
    pose proof (mb_bounds (heapUsed u)) as B.
    pose proof (mb_bounds (heapTotal u)) as C.
    pose proof (mb_bounds (rss u - heapTotal u)) as D.
    assert (rss u mod 2 ^ 20 = rss u - mb (rss u) * 2 ^ 20) as E1.
    { unfold mb. change (Z.shiftl 1 20) with (2 ^ 20).
      pose proof (Z.div_mod (rss u) (2 ^ 20) ltac:(lia)). lia. }
    assert (heapTotal u mod 2 ^ 20
            = heapTotal u - mb (heapTotal u) * 2 ^ 20) as E2.
    { unfold mb. change (Z.shiftl 1 20) with (2 ^ 20).
      pose proof (Z.div_mod (heapTotal u) (2 ^ 20) ltac:(lia)). lia. }
    rewrite E1, E2.
    repeat apply conj; lia.
  - intros pm m this w Hl.
    assert (forall m', memory host pm m' w = (w, Done VUndefined)) as Q.
    { intros m'. unfold memory, log. cbv zeta.
      destruct (_ && _); [reflexivity |].
      now apply Nat.ltb_lt in Hl as ->. }
    split; [apply Q | apply Q].
  - intros pm m w Hl. unfold memory. cbv zeta.
    now apply log_returns.
Qed.

End MemoryFacts.

Lemma memoryUsage_rounds_down_witness :
  let r := memoryUsage (Some (mkMemoryUsage (3 * 2 ^ 20 + 5) (2 ^ 20 + 7) 0 0)) in
  total r = 3 /\ jsHeapTotal r = 1 /\ nativeHeap r = 1 /\
  nativeHeap r <> total r - jsHeapTotal r.
Proof.
  cbv zeta. repeat split.
  intros E.
  apply (proj1 (proj2 (memoryUsage_rounds_down Sample.host
                         (mkMemoryUsage (3 * 2 ^ 20 + 5) (2 ^ 20 + 7) 0 0))))
    in E.
  vm_compute in E. apply E. reflexivity.
Defined.

(* ===================================================================== *)
(** * A rotation that fails *)
(* ===================================================================== *)

Section FailedRotation.

Variable host : Host.

Lemma settles_bind (Q R : World -> Prop) (f : value -> M) :
  (forall v, upholds Q R (f v)) ->
  forall t w, settles Q Q t w ->
  settles Q R (snd (bind t f w)) (fst (bind t f w)).
Proof.
  intros Hf.
  fix IH 1. intros [v | e | c nx | op k] w Ht; cbn [bind].
  - now apply Hf.
  - exact Ht.
  - specialize (IH nx w Ht).
    destruct (bind nx f w) as [w' t']. exact IH.
  - destruct Ht as [Hw Hk]. cbn. split; [exact Hw |].
    intros r w1 Hw1. specialize (Hk r w1 Hw1).
    specialize (IH (snd (k r w1)) (fst (k r w1)) Hk).
    destruct (k r w1) as [w2 t']. exact IH.
Qed.

Lemma settles_moved (Q : World -> Prop) (w w' : World) :
  (Q w -> Q w') ->
  forall t, settles Q (fun _ => True) t w -> settles Q (fun _ => True) t w'.
Proof.
  intros Hq. fix IH 1. intros [v | e | c nx | op k] Ht; cbn in *.
  - exact I.
  - now apply Hq.
  - now apply IH.
  - destruct Ht as [Hw Hk]. split; [now apply Hq | exact Hk].
Qed.

Lemma settles_main (Q R : World -> Prop) (w : World) :
  forall t, settles Q R t w -> settles Q R (main t) w.
Proof.
  fix IH 1. intros [v | e | c nx | op k] Ht; cbn in *; auto.
Qed.

Section Combinators.

Variables Q R : World -> Prop.

Lemma upholds_seqM (m : M) (f : value -> M) :
  upholds Q Q m -> (forall v, upholds Q R (f v)) -> upholds Q R (seqM m f).
Proof.
  intros Hm Hf w H. unfold seqM. specialize (Hm w H).
  destruct (m w) as [w1 t]. now apply settles_bind.
Qed.

Lemma upholds_await (op : io_op) (k : io_result -> M) :
  (forall r, upholds Q R (k r)) -> upholds Q R (await op k).
Proof.
  intros Hk w H. cbn. split; [exact H |]. intros r w1 H1. now apply Hk.
Qed.

Lemma upholds_await_call (m : M) (f : value -> M) :
  upholds Q Q m -> (forall v, upholds Q R (f v)) ->
  upholds Q R (await_call m f).
Proof.
  intros Hm Hf. apply upholds_seqM; [exact Hm |].
  intros v. apply upholds_await. intros _. apply Hf.
Qed.

Lemma upholds_throw (e : exn) : upholds Q R (throw e).
Proof. intros w H. exact H. Qed.

Lemma upholds_withW (f : World -> M) :
  (forall w0, upholds Q R (f w0)) -> upholds Q R (withW f).
Proof. intros Hf w H. now apply Hf. Qed.

Lemma upholds_modify (f : World -> World) :
  (forall w, Q w -> R (f w)) -> upholds Q R (modify f).
Proof. intros Hf w H. now apply Hf. Qed.

End Combinators.

Lemma rotating_getSize : upholds is_rotating is_rotating getSize.
Proof.
  intros w H. unfold getSize. destruct (filename (logger w)); [| exact H].
  cbn. split; [exact H |]. intros r w1 H1.
  destruct r; cbn; try exact H1.
  destruct (String.eqb code "ENOENT"); exact H1.
Qed.

Lemma rotating_open : upholds is_rotating is_rotating (open host).
Proof.
  intros w H. unfold open.
  destruct (negb _); [exact H |].
  destruct (is_some _); [exact H |].
  destruct (fs_unsupported host); [exact H |].
  revert w H. apply upholds_seqM.
  - apply upholds_await_call; [apply rotating_getSize |].
    intros v w H. exact H.
  - intros size. apply upholds_seqM.
    + apply upholds_modify. intros w H. exact H.
    + intros _. apply upholds_withW. intros w0.
      destruct (filename (logger w0)); [| apply upholds_throw].
      apply upholds_await. intros r.
      destruct r; try apply upholds_throw.
      apply upholds_modify. intros w H. exact H.
Qed.

Lemma rotating_close : upholds is_rotating is_rotating (close host).
Proof.
  intros w H. unfold close.
  set (w1 := match timer (logger w) with
             | Some id => upd (set_timer None) (clearTimeout id w)
             | None => w
             end).
  assert (is_rotating w1) as H1
    by (subst w1; destruct (timer (logger w)); exact H).
  clearbody w1.
  destruct (fs_unsupported host); [exact H1 |].
  destruct (stream (logger w1)); [| exact H1].
  cbn. split; [exact H1 |]. intros r w3 H3.
  destruct r; exact H3.
Qed.

Lemma rotating_drain (buf : list string) :
  upholds is_rotating is_rotating (drain buf).
Proof.
  induction buf as [|msg rest IH]; intros w H; cbn [drain]; [exact H |].
  destruct (stream (logger (upd (set_buffer rest) w))) eqn:E.
  - apply IH. exact H.
  - exact H.
Qed.

Lemma rotate_settles (w : World) :
  rotating (logger w) = false ->
  truthy (filename (logger w)) = true ->
  fs_unsupported host = false ->
  settles is_rotating (fun _ => True)
    (snd (rotate host w)) (fst (rotate host w)).
Proof.
  intros Hr Hf Hu. unfold rotate. rewrite Hr, Hf, Hu. cbn [negb].
  cbn [seqM modify bind].
  assert (is_rotating (upd (set_rotating true) w)) as H by reflexivity.
  revert H. generalize (upd (set_rotating true) w). clear w Hr Hf.
  apply upholds_seqM.
  { apply upholds_await_call; [apply rotating_close |].
    intros v w H. exact H. }
  intros _. apply upholds_withW. intros w1.
  destruct (filename (logger w1)); [| apply upholds_throw].
  apply upholds_await. intros r.
  destruct r; try apply upholds_throw.
  apply upholds_seqM.
  { apply upholds_await_call; [apply rotating_open |].
    intros v w H. exact H. }
  intros _. apply upholds_seqM.
  { apply upholds_withW. intros w2. apply rotating_drain. }
  intros _ w H. cbn [seqM modify bind].
  unfold spawn. destruct (prune host _ _ _ _). exact I.
Qed.

Lemma run_settles (evs : list event) :
  Forall leaves_rotating evs ->
  forall t w e,
    settles is_rotating (fun _ => True) t w ->
    main (snd (run t evs w)) = Fail e ->
    is_rotating (fst (run t evs w)).
Proof.
  induction 1 as [| ev evs Hev _ IH]; intros t w e Ht.
  - cbn. intros E. apply settles_main in Ht. now rewrite E in Ht.
  - destruct ev as [now m | now r]; cbn [run].
    + apply IH.
      apply (settles_moved is_rotating w); [| exact Ht].
      intros Hw. apply Hev. exact Hw.
    + pose proof (settles_main _ _ _ _ Ht) as Hm.
      destruct (main t) as [v | e' | c nx | op k] eqn:E;
        try (now apply IH).
      destruct Hm as [Hw Hk].
      specialize (Hk r (set_clock now w) Hw).
      destruct (k r (set_clock now w)) as [w1 t1]. now apply IH.
Qed.

(** X13.  When [rotate] fails, whichever of its steps fails (closing the
    old stream, the rename, the stat, opening the new stream, draining),
    [rotating] is left set, as long as nothing else clears it; from then
    on every [writeStream] only buffers its line and every [rotate]
    returns null.  Calls of [writeStream] do not clear the flag. *)
Theorem failed_rotation_stays_rotating (w : World) (evs : list event)
  (e : exn) :
  rotating (logger w) = false ->
  truthy (filename (logger w)) = true ->
  fs_unsupported host = false ->
  Forall leaves_rotating evs ->
  main (snd (run (snd (rotate host w)) evs (fst (rotate host w)))) = Fail e ->
  let w' := fst (run (snd (rotate host w)) evs (fst (rotate host w))) in
  rotating (logger w') = true /\
  rotate host w' = (w', Done VNull) /\
  (forall lvl m args,
     (lvl < 6)%nat ->
     writeStream host lvl m args w'
     = (upd (set_buffer
               (_buffer (logger w')
                ++ [stream_line host (clock w')
                      (nth lvl prefixByVal "") m args])) w',
        Done VUndefined)) /\
  (forall c, leaves_rotating (write_event host c)).
Proof.
  intros Hr Hf Hu Hev He w'.
  assert (is_rotating w') as H.
  { apply (run_settles evs Hev _ _ e); [| exact He].
    now apply rotate_settles. }
  split; [exact H | split; [| split]].
  - unfold rotate. now rewrite H.
  - intros lvl m args Hl. now apply writeStream_buffers.
  - intros c w0 H0. cbn. unfold writeStream.
    destruct (nth_error prefixByVal (wc_level c)); [| exact H0].
    unfold is_rotating in H0. rewrite H0, !andb_false_r. exact H0.
Qed.

End FailedRotation.

Lemma failed_rotation_stays_rotating_witness :
  let d := Sample.now in
  let evs :=
    [Settle d RDone;
     write_event Sample.host (mkWrite d Levels.INFO None [VStr "kept"]);
     Settle d RDone; Settle d (RError "EACCES")] in
  let r :=
    run (snd (rotate Sample.host Sample.open_world)) evs
      (fst (rotate Sample.host Sample.open_world)) in
  snd r = Fail (IoError "EACCES") /\
  rotating (logger (fst r)) = true /\
  rotate Sample.host (fst r) = (fst r, Done VNull).
Proof.
  cbv zeta. split; [reflexivity |].
  assert (Forall leaves_rotating
            [Settle Sample.now RDone;
             write_event Sample.host
               (mkWrite Sample.now Levels.INFO None [VStr "kept"]);
             Settle Sample.now RDone;
             Settle Sample.now (RError "EACCES")]) as F.
  { repeat constructor. intros w H. cbn. unfold writeStream. cbn.
    unfold is_rotating in H. rewrite H, !andb_false_r. reflexivity. }
  destruct (failed_rotation_stays_rotating Sample.host Sample.open_world _
              (IoError "EACCES") eq_refl eq_refl eq_refl F eq_refl)
    as (A & B & _).
  split; [exact A | exact B].
Defined.

(* ===================================================================== *)
(** * Pruning, continued *)
(* ===================================================================== *)

Section PruneOutcomes.

Variable host : Host.

(** X14.  With a positive [maxFiles], [prune] reads the directory once
    and unlinks, in ascending order of name, the files matching the
    pattern except the last [maxFiles] of them: what is unlinked and
    what is kept make up the matching files, the kept ones number
    min(matching, maxFiles), and every unlinked name sorts before every
    kept one. *)
Theorem prune_keeps_the_newest (dir base ext : string)
  (files : list string) (r : RegExp.re) (w : World) :
  RegExp.compile (base ++ "_.*" ++ ext) = RegExp.Compiled r ->
  0 < maxFiles (logger w) ->
  let old := List.filter (RegExp.test r) files in
  let k := Z.to_nat (Z.of_nat (List.length old) - maxFiles (logger w)) in
  let gone := firstn k (JsArray.sort old) in
  let kept := skipn k (JsArray.sort old) in
  drive (cooperative 0 0 files)
    (snd (prune host dir base ext w)) (fst (prune host dir base ext w))
  = (w, Done VUndefined,
     OpReaddir dir :: map (fun f => OpUnlink (Path_join host dir f)) gone) /\
  Permutation (gone ++ kept) old /\
  Z.of_nat (List.length kept)
  = Z.min (Z.of_nat (List.length old)) (maxFiles (logger w)) /\
  StronglySorted ascending gone /\
  (forall x y, In x gone -> In y kept -> ascending x y).
Proof.
  intros E Hm old k gone kept.
  pose proof (prune_list_positive r files (maxFiles (logger w)) Hm) as P.
  pose proof (prune_list_oldest r files (maxFiles (logger w)) Hm)
    as (Q1 & Q2 & Q3).
  fold old in P, Q1, Q2, Q3. fold k in P, Q1, Q2, Q3.
  fold gone in P. rewrite P in Q1, Q3.
  split; [| split; [exact Q1 | split; [exact Q2 | split; [| exact Q3]]]].
  - rewrite (prune_drive host dir base ext files r w E). now rewrite P.
  - subst gone. generalize k. 
    pose proof (sort_sorted old) as S. revert S.
    generalize (JsArray.sort old). intros l S.
    induction S as [| a l S IH F]; intros [|n]; cbn; try constructor.
    + apply IH.
    + apply List.Forall_forall. intros x Hx.
      apply In_firstn_list in Hx.
      now apply (proj1 (List.Forall_forall _ _) F).
Qed.

(** X15.  When the base name and the extension are plain text (the
    extension empty or a dot and plain text), the pattern compiles and
    [prune] unlinks only names that the directory listed, that match the
    pattern, and that are not the active file. *)
Theorem prune_unlinks_only_listed_archives (dir base ext : string)
  (files : list string) (w : World) :
  ActiveFile.literal base = true ->
  ext = EmptyString \/
  (exists tail, ext = String "." tail /\ ActiveFile.literal tail = true) ->
  exists r gone,
    RegExp.compile (base ++ "_.*" ++ ext) = RegExp.Compiled r /\
    drive (cooperative 0 0 files)
      (snd (prune host dir base ext w)) (fst (prune host dir base ext w))
    = (w, Done VUndefined,
       OpReaddir dir :: map (fun f => OpUnlink (Path_join host dir f)) gone) /\
    forall x,
      In x gone ->
      In x files /\ RegExp.test r x = true /\ x <> base ++ ext /\
      (String.length (base ++ ext) < String.length x)%nat.
Proof.
  intros Hb He.
  destruct (archive_pattern_minlen base ext Hb He) as (r & E & L).
  exists r, (prune_list r files (maxFiles (logger w))).
  split; [exact E | split; [now apply prune_drive |]].
  intros x Hx. apply prune_list_matches in Hx as [Hin T].
  pose proof (test_minlen r x T) as Hlen.
  repeat split; try assumption; [| lia].
  intros ->. lia.
Qed.

Lemma io_op_eqb_unlink (p q : string) :
  p <> q -> io_op_eqb (OpUnlink p) (OpUnlink q) = false.
Proof. intros H. cbn. now apply String.eqb_neq. Qed.

Lemma unlink_all_failing (o : io_op -> io_result) (code dir bad : string)
  (l1 l2 : list string) (w : World) :
  (forall p, p <> Path_join host dir bad -> o (OpUnlink p) = RDone) ->
  Forall (fun x => Path_join host dir x <> Path_join host dir bad) l1 ->
  drive (failing (OpUnlink (Path_join host dir bad)) code o)
    (snd (unlink_all host dir (l1 ++ bad :: l2) w))
    (fst (unlink_all host dir (l1 ++ bad :: l2) w))
  = (w, Fail (IoError code),
     map (fun f => OpUnlink (Path_join host dir f)) (l1 ++ [bad])).
Proof.
  intros Ho. induction 1 as [| x l1 Hx _ IH]; cbn [app unlink_all].
  - cbn. unfold failing. cbn. now rewrite String.eqb_refl.
  - cbn [await snd fst drive]. unfold failing at 1.
    rewrite (io_op_eqb_unlink _ _ Hx), (Ho _ Hx).
    destruct (unlink_all host dir (l1 ++ bad :: l2) w) as [w1 t1].
    cbn in IH. rewrite IH. reflexivity.
Qed.

(** X16.  [prune] stops at the first [unlink] that fails: the files
    before it have been unlinked, the ones after it are never tried, and
    the call fails with the error of the host. *)
Theorem prune_stops_at_the_first_failure (dir base ext code bad : string)
  (files l1 l2 : list string) (r : RegExp.re) (w : World) :
  RegExp.compile (base ++ "_.*" ++ ext) = RegExp.Compiled r ->
  prune_list r files (maxFiles (logger w)) = (l1 ++ bad :: l2)%list ->
  Forall (fun x => Path_join host dir x <> Path_join host dir bad) l1 ->
  drive (failing (OpUnlink (Path_join host dir bad)) code
           (cooperative 0 0 files))
    (snd (prune host dir base ext w)) (fst (prune host dir base ext w))
  = (w, Fail (IoError code),
     OpReaddir dir
     :: map (fun f => OpUnlink (Path_join host dir f)) (l1 ++ [bad])).
Proof.
  intros E P F. unfold prune.
  cbn -[RegExp.compile append unlink_all prune_list]. rewrite E.
  cbn -[unlink_all prune_list]. rewrite P.
  pose proof (unlink_all_failing (cooperative 0 0 files) code dir bad
                l1 l2 w (fun _ _ => eq_refl) F) as D.
  destruct (unlink_all host dir _ w) as [w1 t1]. cbn in D. now rewrite D.
Qed.

End PruneOutcomes.

Lemma prune_keeps_the_newest_witness :
  drive (cooperative 0 0 PruneExample.archive_listing)
    (snd (prune Sample.host "/var/log" "debug" ".log"
            (PruneExample.limited 1)))
    (fst (prune Sample.host "/var/log" "debug" ".log"
            (PruneExample.limited 1)))
  = (PruneExample.limited 1, Done VUndefined,
     [OpReaddir "/var/log";
      OpUnlink ("/var/log/" ++ PruneExample.t1);
      OpUnlink ("/var/log/" ++ PruneExample.t2)]).
Proof.
  destruct (RegExp.compile "debug_.*.log") as [r | |] eqn:E;
    try (vm_compute in E; discriminate E).
  destruct (prune_keeps_the_newest Sample.host "/var/log" "debug" ".log"
              PruneExample.archive_listing r (PruneExample.limited 1) E
              ltac:(cbv; reflexivity)) as (D & _).
  rewrite D. vm_compute in E. injection E as <-. vm_compute. reflexivity.
Defined.

Lemma prune_unlinks_only_listed_archives_witness :
  exists r gone,
    RegExp.compile "debug_.*.log" = RegExp.Compiled r /\
    drive (cooperative 0 0 PruneExample.archive_listing)
      (snd (prune Sample.host "/var/log" "debug" ".log"
              (PruneExample.limited 1)))
      (fst (prune Sample.host "/var/log" "debug" ".log"
              (PruneExample.limited 1)))
    = (PruneExample.limited 1, Done VUndefined,
       OpReaddir "/var/log"
       :: map (fun f => OpUnlink (Path_join Sample.host "/var/log" f)) gone) /\
    ~ In "debug.log" gone.
Proof.
  destruct (prune_unlinks_only_listed_archives Sample.host "/var/log"
              "debug" ".log" PruneExample.archive_listing
              (PruneExample.limited 1) eq_refl
              (or_intror (ex_intro _ "log" (conj eq_refl eq_refl))))
    as (r & gone & E & D & H).
  exists r, gone. split; [exact E | split; [exact D |]].
  intros Hin. apply H in Hin as (_ & _ & Hne & _). now apply Hne.
Defined.

Lemma prune_stops_at_the_first_failure_witness :
  drive (failing (OpUnlink ("/var/log/" ++ PruneExample.t1)) "EPERM"
           (cooperative 0 0 PruneExample.archive_listing))
    (snd (prune Sample.host "/var/log" "debug" ".log"
            (PruneExample.limited 1)))
    (fst (prune Sample.host "/var/log" "debug" ".log"
            (PruneExample.limited 1)))
  = (PruneExample.limited 1, Fail (IoError "EPERM"),
     [OpReaddir "/var/log"; OpUnlink ("/var/log/" ++ PruneExample.t1)]).
Proof.
  destruct (RegExp.compile "debug_.*.log") as [r | |] eqn:E;
    try (vm_compute in E; discriminate E).
  refine (prune_stops_at_the_first_failure Sample.host "/var/log" "debug"
            ".log" "EPERM" PruneExample.t1 PruneExample.archive_listing
            [] [PruneExample.t2] r (PruneExample.limited 1) E _
            (List.Forall_nil _)).
  vm_compute in E. injection E as <-. vm_compute. reflexivity.
Defined.

(* ===================================================================== *)
(** * Opening, closing and reopening *)
(* ===================================================================== *)

Section Lifecycle.

Variable host : Host.

(** X17.  [open] without a file name, with a stream already open, or
    without a file system only clears [closed].  Otherwise it stats the
    file, takes its size (0 when the file does not exist) as the byte
    count, opens the stream, listens for its errors and clears [closed];
    when the stat or the stream fails, [open] fails with the error of the
    host and [closed] keeps its value. *)
Theorem open_outcomes (w : World) :
  (truthy (filename (logger w)) = false
   \/ is_some (stream (logger w)) = true
   \/ fs_unsupported host = true ->
   open host w = (upd (set_closed false) w, Done VUndefined)) /\
  (forall f o,
     filename (logger w) = Some f -> f <> "" ->
     stream (logger w) = None ->
     fs_unsupported host = false ->
     let result := drive o (snd (open host w)) (fst (open host w)) in
     let opened size h :=
       upd (set_closed false)
         (set_listeners (listeners w ++ [h])
            (upd (set_stream (Some h)) (upd (set_fileSize size) w))) in
     (forall size h,
        o (OpStat f) = RSize size -> o (OpOpenStream f) = RStream h ->
        result = (opened size h, Done VUndefined,
                  [OpStat f; OpYield; OpOpenStream f])) /\
     (forall h,
        o (OpStat f) = RError "ENOENT" -> o (OpOpenStream f) = RStream h ->
        result = (opened 0 h, Done VUndefined,
                  [OpStat f; OpYield; OpOpenStream f])) /\
     (forall code,
        o (OpStat f) = RError code -> code <> "ENOENT" ->
        result = (w, Fail (IoError code), [OpStat f])) /\
     (forall size code,
        o (OpStat f) = RSize size -> o (OpOpenStream f) = RError code ->
        result = (upd (set_fileSize size) w, Fail (IoError code),
                  [OpStat f; OpYield; OpOpenStream f]))).
Proof.
  split.
  - intros H. unfold open.
    destruct (truthy _); cbn [negb]; [| reflexivity].
    destruct (is_some _); [reflexivity |].
    destruct (fs_unsupported host); [reflexivity |].
    destruct H as [H | [H | H]]; discriminate H.
  - intros f o Hf Hne Hs Hu result opened.
    assert (truthy (filename (logger w)) = true) as Ht.
    { rewrite Hf. cbn. apply negb_true_iff. now apply String.eqb_neq. }
    subst result opened. unfold open.
    rewrite Ht, Hs, Hu. cbn [negb is_some].
    unfold getSize. cbn. rewrite Hf. cbn.
    repeat apply conj.
    + intros size h E1 E2. rewrite E1. cbn. rewrite Hf. cbn.
      rewrite E2. reflexivity.
    + intros h E1 E2. rewrite E1. cbn. rewrite Hf. cbn.
      rewrite E2. reflexivity.
    + intros code E1 Hc. rewrite E1.
      replace (String.eqb code "ENOENT") with false
        by (symmetry; now apply String.eqb_neq).
      reflexivity.
    + intros size code E1 E2. rewrite E1. cbn. rewrite Hf. cbn.
      rewrite E2. reflexivity.
Qed.

(** X18.  [close] against any host.  The retry timer is cancelled.  With
    a stream to close, the error listener of the stream is removed and
    the stream is closed; when the host reports it closed the logger is
    closed, without stream and with a byte count of 0; when the host
    reports an error [close] fails and the logger keeps its stream and
    the value of [closed]; [closing] is lowered either way.  Without a
    stream the logger is marked closed at once. *)
Theorem close_outcomes (w : World) (o : io_op -> io_result) :
  fs_unsupported host = false ->
  timers_ok w ->
  let r := drive o (snd (close host w)) (fst (close host w)) in
  let w' := fst (fst r) in
  timers w' = [] /\ timer (logger w') = None /\
  (stream (logger w) = None ->
   snd (fst r) = Done VUndefined /\ snd r = [] /\
   closed (logger w') = true /\ _fileSize (logger w') = 0 /\
   effects w' = effects w) /\
  (forall h,
     stream (logger w) = Some h ->
     snd r = [OpCloseStream h] /\
     closing (logger w') = false /\
     ~ In h (listeners w') /\
     effects w' = (effects w ++ [EStreamClose h])%list /\
     (o (OpCloseStream h) = RDone ->
      snd (fst r) = Done VUndefined /\
      closed (logger w') = true /\ stream (logger w') = None /\
      _fileSize (logger w') = 0) /\
     (forall code,
        o (OpCloseStream h) = RError code ->
        snd (fst r) = Fail (IoError code) /\
        stream (logger w') = Some h /\
        closed (logger w') = closed (logger w) /\
        _fileSize (logger w') = _fileSize (logger w))).
Proof.
  intros Hu Hok r w'. subst r w'. unfold close. rewrite Hu.
  set (w1 := match timer (logger w) with
             | Some id => upd (set_timer None) (clearTimeout id w)
             | None => w
             end).
  assert (timers w1 = [] /\ timer (logger w1) = None
          /\ stream (logger w1) = stream (logger w)
          /\ effects w1 = effects w /\ listeners w1 = listeners w
          /\ closed (logger w1) = closed (logger w)
          /\ _fileSize (logger w1) = _fileSize (logger w))
    as (T1 & T2 & S1 & E1 & L1 & C1 & F1).
  { subst w1. unfold timers_ok in Hok.
    destruct (timer (logger w)) as [id |] eqn:Et; cbn; rewrite Hok; cbn;
      rewrite ?Nat.eqb_refl; cbn; repeat split; exact Et. }
  clearbody w1. rewrite S1.
  destruct (stream (logger w)) as [h0 |].
  - cbn. destruct (o (OpCloseStream h0)) eqn:Eo; cbn;
      (split; [exact T1 | split; [exact T2 | split; [discriminate |]]]);
      intros hh [= <-];
      (split; [reflexivity | split; [reflexivity | split; [| split;
         [now rewrite E1 | split]]]]);
      try (intros Hin; apply filter_In in Hin as [_ Hin];
           now rewrite Nat.eqb_refl in Hin);
      try discriminate; try (intros _; now repeat split).
    all: try (intros H; rewrite Eo in H; discriminate H).
    all: intros code' H; rewrite Eo in H; try discriminate H.
    injection H as <-. repeat split; assumption.
  - cbn. split; [exact T1 | split; [exact T2 | split]].
    + intros _. repeat split. exact E1.
    + discriminate.
Qed.

(** X19.  A stream error followed by the retry: the error closes the
    stream and sets one timer; when the timer fires [reopen] opens the
    file again, and once the stream is open the logger writes to it, the
    timer is gone, the new stream is listened to, and the byte count is
    the one from before the error (the file is not measured again). *)
Theorem stream_error_then_reopen (w : World) (h h' : nat) (f : string) :
  timers_ok w ->
  timer (logger w) = None ->
  stream (logger w) = Some h ->
  In h (listeners w) ->
  closed (logger w) = false ->
  fs_unsupported host = false ->
  filename (logger w) = Some f ->
  exists id k w2,
    timers (stream_error h w) = [(id, 10000)] /\
    effects (stream_error h w) = (effects w ++ [EStreamClose h])%list /\
    stream_error h (stream_error h w) = stream_error h w /\
    timer_fire host id (stream_error h w)
    = (w2, Spawn (Await (OpOpenStream f) k) (Done VUndefined)) /\
    let w3 := fst (k (RStream h') w2) in
    snd (k (RStream h') w2) = Done VUndefined /\
    stream (logger w3) = Some h' /\
    timers w3 = [] /\ timer (logger w3) = None /\
    listeners w3
    = (List.filter (fun x => negb (Nat.eqb x h)) (listeners w) ++ [h'])%list /\
    effects w3 = (effects w ++ [EStreamClose h])%list /\
    _fileSize (logger w3) = _fileSize (logger w).
Proof.
  intros Hok Ht Hs Hin Hc Hu Hf.
  assert (timers w = []) as Hts by (unfold timers_ok in Hok; now rewrite Ht in Hok).
  assert (existsb (Nat.eqb h) (listeners w) = true) as Hex.
  { apply existsb_exists. exists h. split; [exact Hin | apply Nat.eqb_refl]. }
  assert (existsb (Nat.eqb h)
            (List.filter (fun x => negb (Nat.eqb x h)) (listeners w)) = false)
    as Hnex.
  { apply not_true_iff_false. intros H.
    apply existsb_exists in H as (x & Hx & E).
    apply filter_In in Hx as [_ Hx]. apply Nat.eqb_eq in E. subst x.
    now rewrite Nat.eqb_refl in Hx. }
  assert (stream_error h w
          = mkWorld (set_timer (Some (next_id w))
                       (set_stream None (logger w)))
              (clock w) (effects w ++ [EStreamClose h])
              [(next_id w, 10000)]
              (List.filter (fun x => negb (Nat.eqb x h)) (listeners w))
              (heap w) (S (next_id w))) as E.
  { unfold stream_error. rewrite Hex. unfold handleError, retry. cbn.
    rewrite Hs. cbn. rewrite Ht, Hts. reflexivity. }
  rewrite E.
  eexists (next_id w), _, _.
  split; [reflexivity | split; [reflexivity | split; [| split]]].
  - unfold stream_error. cbn [listeners]. now rewrite Hnex.
  - unfold timer_fire. cbn. rewrite Nat.eqb_refl. cbn.
    unfold reopen. cbn. rewrite Hc, Hu, Hf. reflexivity.
  - cbn. repeat split.
Qed.

Lemma immediate_seqM (m : M) (k : value -> M) :
  immediate m -> (forall v, immediate (k v)) -> immediate (seqM m k).
Proof.
  intros Hm Hk w. unfold seqM.
  destruct (Hm w) as (w' & [[v E] | [e E]]); rewrite E; cbn.
  - apply Hk.
  - exists w'. right. now exists e.
Qed.

Lemma immediate_set (opts : options) : immediate (set host opts).
Proof.
  assert (forall b msg, immediate (assert b msg)) as A
    by (intros [] msg; [apply immediate_ret | apply immediate_throw]).
  destruct opts as [s | o]; unfold set.
  - apply immediate_seqM; [apply A | intros _].
    apply immediate_seqM; [| intros _; apply immediate_setLevel].
    apply immediate_assert_closed.
  - apply immediate_seqM; [apply immediate_assert_closed | intros _].
    repeat (apply immediate_seqM;
            [apply immediate_when;
             match goal with
             | |- immediate (match ?v with _ => _ end) =>
                 destruct v; try apply immediate_throw;
                 try apply immediate_setLevel; apply immediate_modify
             end
            | intros _]).
    apply immediate_when. destruct (is_uint32 _);
      [apply immediate_modify | apply immediate_throw].
Qed.

(** A property that every assignment of an option keeps is kept by
    [set]. *)
Lemma set_preserves (P : World -> Prop) :
  (forall lv w, P w -> P (upd (set_level lv) w)) ->
  (HAS_TTY host = true -> forall b w, P w -> P (upd (set_colors b) w)) ->
  (forall b w, P w -> P (upd (set_timestamps b) w)) ->
  (forall b w, P w -> P (upd (set_console b) w)) ->
  (forall f w, P w -> P (upd (set_filename f) w)) ->
  (forall n w, P w -> P (upd (set_maxFileSize n) w)) ->
  (forall n w, P w -> P (upd (set_maxFiles n) w)) ->
  forall opts, preserves P (set host opts).
Proof.
  intros Hl Hc Ht Hs Hf Hz Hm.
  assert (forall name, preserves P (setLevel name)) as HL.
  { intros name. unfold setLevel.
    destruct (levels _); [| apply preserves_throw].
    apply preserves_modify. intros w. apply Hl. }
  intros [s | o]; unfold set.
  - apply preserves_seqM; [apply preserves_assert | intros _].
    apply preserves_seqM; [| intros _; apply HL].
    apply preserves_withW. intros w0. apply preserves_assert.
  - apply preserves_seqM.
    { apply preserves_withW. intros w0. apply preserves_assert. }
    intros _. apply preserves_seqM.
    { apply preserves_when.
      destruct (opt_level o); try apply preserves_throw. apply HL. }
    intros _. apply preserves_seqM.
    { destruct (HAS_TTY host) eqn:E.
      - apply preserves_when.
        destruct (opt_colors o); try apply preserves_throw.
        apply preserves_modify. intros w. now apply Hc.
      - rewrite andb_false_r. apply preserves_ret. }
    intros _. apply preserves_seqM.
    { apply preserves_when.
      destruct (opt_timestamps o); try apply preserves_throw.
      apply preserves_modify. intros w. apply Ht. }
    intros _. apply preserves_seqM.
    { apply preserves_when.
      destruct (opt_console o); try apply preserves_throw.
      apply preserves_modify. intros w. apply Hs. }
    intros _. apply preserves_seqM.
    { apply preserves_when.
      destruct (opt_filename o); try apply preserves_throw.
      apply preserves_modify. intros w. apply Hf. }
    intros _. apply preserves_seqM.
    { apply preserves_when.
      destruct (is_uint32 _); try apply preserves_throw.
      apply preserves_modify. intros w. apply Hz. }
    intros _. apply preserves_when.
    destruct (is_uint32 _); try apply preserves_throw.
    apply preserves_modify. intros w. apply Hm.
Qed.

(** X20.  [set] is refused on a logger that is not closed, with nothing
    changed; whatever its outcome it ends without suspending and touches
    nothing but the seven options; and without a terminal the option
    [colors] is ignored.  [setFile] is refused once a stream exists. *)
Theorem set_changes_only_the_options (opts : options) (w : World) :
  (closed (logger w) = false ->
   set host opts w = (w, Fail (AssertionError "Assertion failed."))) /\
  same_but_options w (fst (set host opts w)) /\
  ((exists v, snd (set host opts w) = Done v)
   \/ (exists e, snd (set host opts w) = Fail e)) /\
  (HAS_TTY host = false ->
   colors (logger (fst (set host opts w))) = colors (logger w)) /\
  (forall name h,
     stream (logger w) = Some h ->
     setFile name w
     = (w, Fail (AssertionError "Log stream has already been created."))) /\
  (forall name,
     stream (logger w) = None ->
     setFile name w = (upd (set_filename (Some name)) w, Done VUndefined)).
Proof.
  split; [| split; [| split; [| split; [| split]]]].
  - intros Hc. destruct opts as [s | o]; unfold set; cbn.
    + destruct (String.eqb s ""); cbn; [reflexivity |].
      rewrite Hc. reflexivity.
    + rewrite Hc. reflexivity.
  - apply (set_preserves (same_but_options w)); try (repeat split; fail);
      try (intros ? w1 H; exact H).
    intros _ ? w1 H. exact H.
  - destruct (immediate_set opts w) as (w' & [[v E] | [e E]]);
      rewrite E; eauto.
  - intros Htty.
    apply (set_preserves
             (fun w' => colors (logger w') = colors (logger w)));
      try reflexivity; try (intros ? w1 H; exact H).
    congruence.
  - intros name h Hs. unfold setFile, withW.
    replace (is_some (stream (logger w))) with true by now rewrite Hs.
    reflexivity.
  - intros name Hs. unfold setFile, withW.
    replace (is_some (stream (logger w))) with false by now rewrite Hs.
    reflexivity.
Qed.

End Lifecycle.

Lemma open_outcomes_witness :
  let w := upd (set_closed true) (upd (set_stream None) Sample.open_world) in
  drive (cooperative 7 3 []) (snd (open Sample.host w))
    (fst (open Sample.host w))
  = (upd (set_closed false)
       (set_listeners [1%nat; 3%nat]
          (upd (set_stream (Some 3%nat)) (upd (set_fileSize 7) w))),
     Done VUndefined,
     [OpStat "/var/log/debug.log"; OpYield;
      OpOpenStream "/var/log/debug.log"]) /\
  drive (failing (OpStat "/var/log/debug.log") "EACCES" (cooperative 7 3 []))
    (snd (open Sample.host w)) (fst (open Sample.host w))
  = (w, Fail (IoError "EACCES"), [OpStat "/var/log/debug.log"]).
Proof.
  cbv zeta.
  pose proof (open_outcomes Sample.host
                (upd (set_closed true)
                   (upd (set_stream None) Sample.open_world))) as [_ H].
  split.
  - destruct (H "/var/log/debug.log" (cooperative 7 3 []) eq_refl
                ltac:(discriminate) eq_refl eq_refl) as (A & _).
    exact (A 7 3%nat eq_refl eq_refl).
  - destruct (H "/var/log/debug.log"
                (failing (OpStat "/var/log/debug.log") "EACCES"
                   (cooperative 7 3 []))
                eq_refl ltac:(discriminate) eq_refl eq_refl)
      as (_ & _ & C & _).
    exact (C "EACCES" eq_refl ltac:(discriminate)).
Defined.

Lemma close_outcomes_witness :
  let r :=
    drive (failing (OpCloseStream 1) "EIO" (cooperative 0 0 []))
      (snd (close Sample.host Sample.open_world))
      (fst (close Sample.host Sample.open_world)) in
  snd (fst r) = Fail (IoError "EIO") /\
  stream (logger (fst (fst r))) = Some 1%nat /\
  closing (logger (fst (fst r))) = false /\
  ~ In 1%nat (listeners (fst (fst r))).
Proof.
  cbv zeta.
  destruct (close_outcomes Sample.host Sample.open_world
              (failing (OpCloseStream 1) "EIO" (cooperative 0 0 []))
              eq_refl eq_refl) as (_ & _ & _ & H).
  destruct (H 1%nat eq_refl) as (_ & C & L & _ & _ & F).
  destruct (F "EIO" eq_refl) as (A & B & _).
  split; [exact A | split; [exact B | split; [exact C | exact L]]].
Defined.

Lemma stream_error_then_reopen_witness :
  exists id k w2,
    timers (stream_error 1 Sample.open_world) = [(id, 10000)] /\
    timer_fire Sample.host id (stream_error 1 Sample.open_world)
    = (w2, Spawn (Await (OpOpenStream "/var/log/debug.log") k)
             (Done VUndefined)) /\
    stream (logger (fst (k (RStream 2) w2))) = Some 2%nat /\
    timers (fst (k (RStream 2) w2)) = [] /\
    _fileSize (logger (fst (k (RStream 2) w2))) = 60.
Proof.
  destruct (stream_error_then_reopen Sample.host Sample.open_world 1 2
              "/var/log/debug.log" eq_refl eq_refl eq_refl
              (or_introl eq_refl) eq_refl eq_refl eq_refl)
    as (id & k & w2 & T & _ & _ & F & _ & S & Ts & _ & _ & _ & Z).
  exists id, k, w2. repeat split; assumption.
Defined.

Lemma set_changes_only_the_options_witness :
  set Sample.host (OptString "debug") Sample.open_world
  = (Sample.open_world, Fail (AssertionError "Assertion failed.")) /\
  setFile "/tmp/other.log" Sample.open_world
  = (Sample.open_world,
     Fail (AssertionError "Log stream has already been created.")) /\
  colors (logger (fst (set Sample.host
                         (OptObject (mkOptions VUndefined (VBool true)
                                       VUndefined VUndefined VUndefined
                                       VUndefined VUndefined))
                         (initial_world Sample.host Sample.now)))) = false.
Proof.
  destruct (set_changes_only_the_options Sample.host (OptString "debug")
              Sample.open_world) as (A & _ & _ & _ & B & _).
  destruct (set_changes_only_the_options Sample.host
              (OptObject (mkOptions VUndefined (VBool true) VUndefined
                            VUndefined VUndefined VUndefined VUndefined))
              (initial_world Sample.host Sample.now))
    as (_ & _ & _ & C & _).
  split; [exact (A eq_refl) | split; [exact (B _ 1%nat eq_refl) |]].
  rewrite (C eq_refl). reflexivity.
Defined.

(* ===================================================================== *)
(** * The byte count *)
(* ===================================================================== *)

Section ByteCount.

Variable host : Host.

Lemma total_length_nonneg (ls : list string) : 0 <= total_length ls.
Proof.
  induction ls as [|l ls IH]; [cbn; lia |].
  change (0 <= strlen l + total_length ls). unfold strlen. lia.
Qed.

Lemma writeStream_direct (w : World) (h lvl : nat) (m : option string)
  (args : list value) :
  (lvl < 6)%nat ->
  stream (logger w) = Some h ->
  rotating (logger w) = false ->
  closing (logger w) = false ->
  let msg := stream_line host (clock w) (nth lvl prefixByVal "") m args in
  _fileSize (logger w) + strlen msg < maxFileSize (logger w) ->
  writeStream host lvl m args w = (written h msg w, Done VUndefined).
Proof.
  intros Hl Hs Hr Hc msg Hlt. unfold writeStream.
  rewrite (prefix_of_level lvl Hl), Hs, Hr, Hc. cbn [is_some negb andb].
  fold msg. cbv zeta. cbn [upd emit logger maxFileSize _fileSize set_fileSize].
  replace (maxFileSize (logger w) <=? _fileSize (logger w) + strlen msg)
    with false by (symmetry; apply Z.leb_gt; exact Hlt).
  reflexivity.
Qed.

(** X21.  As long as the limit is not reached, a series of writes goes
    to the stream line by line, in call order, and the byte count grows
    by the total length of the lines; no rotation starts and nothing is
    buffered. *)
Theorem direct_writes_are_counted (ws : list write_call) (h : nat) :
  forall w,
  Forall valid_level ws ->
  stream (logger w) = Some h ->
  rotating (logger w) = false ->
  closing (logger w) = false ->
  _fileSize (logger w) + total_length (map (line_of host) ws)
  < maxFileSize (logger w) ->
  let w' := fst (run (Done VUndefined) (map (write_event host) ws) w) in
  effects w' = (effects w ++ map (EWrite h) (map (line_of host) ws))%list /\
  _fileSize (logger w')
  = _fileSize (logger w) + total_length (map (line_of host) ws) /\
  rotating (logger w') = false /\
  stream (logger w') = Some h /\
  _buffer (logger w') = _buffer (logger w).
Proof.
  induction ws as [|c ws IH]; intros w Hv Hs Hr Hc Hlt w'.
  - subst w'. cbn. rewrite app_nil_r. repeat split; try assumption. lia.
  - inversion Hv as [| ? ? Hc1 Hv1]; subst.
    subst w'. cbn [map run write_event].
    pose proof (total_length_nonneg (map (line_of host) ws)) as Hn.
    change (total_length (map (line_of host) (c :: ws)))
      with (strlen (line_of host c) + total_length (map (line_of host) ws))
      in *.
    rewrite (writeStream_direct (set_clock (wc_now c) w) h (wc_level c)
               (wc_module c) (wc_args c) Hc1 Hs Hr Hc)
      by (change (_fileSize (logger w) + strlen (line_of host c)
                  < maxFileSize (logger w)); lia).
    cbn [fst].
    change (stream_line host (clock (set_clock (wc_now c) w))
              (nth (wc_level c) prefixByVal "") (wc_module c) (wc_args c))
      with (line_of host c).
    set (w1 := written h (line_of host c) (set_clock (wc_now c) w)).
    destruct (IH w1 Hv1) as (E & F & R & S & B); try assumption.
    { change (_fileSize (logger w) + strlen (line_of host c)
              + total_length (map (line_of host) ws)
              < maxFileSize (logger w)). lia. }
    rewrite E, F, R, S, B.
    change (effects w1) with (effects w ++ [EWrite h (line_of host c)])%list.
    change (_fileSize (logger w1))
      with (_fileSize (logger w) + strlen (line_of host c)).
    change (_buffer (logger w1)) with (_buffer (logger w)).
    rewrite <- app_assoc. cbn [app map].
    change (total_length (line_of host c :: map (line_of host) ws))
      with (strlen (line_of host c) + total_length (map (line_of host) ws)).
    repeat split. lia.
Qed.

End ByteCount.

Lemma direct_writes_are_counted_witness :
  let w := upd (set_maxFileSize 1000) Sample.open_world in
  let ws :=
    [mkWrite Sample.now Levels.INFO None [VStr "one"];
     mkWrite Sample.now Levels.ERROR (Some "net") [VStr "two"]] in
  let w' := fst (run (Done VUndefined)
                   (map (write_event Sample.host) ws) w) in
  effects w'
  = [EWrite 1 ("[I:2019-10-28T19:02:45Z] one" ++ nl);
     EWrite 1 ("[E:2019-10-28T19:02:45Z] (net) two" ++ nl)] /\
  _fileSize (logger w') = 60 + 29 + 35.
Proof.
  cbv zeta.
  destruct (direct_writes_are_counted Sample.host
              [mkWrite Sample.now Levels.INFO None [VStr "one"];
               mkWrite Sample.now Levels.ERROR (Some "net") [VStr "two"]]
              1 (upd (set_maxFileSize 1000) Sample.open_world))
    as (E & F & _); try reflexivity.
  - repeat constructor; cbv; lia.
  - split; [rewrite E | rewrite F]; reflexivity.
Defined.
